(** * fdroid-github-tracker: the update orchestrator of [update_fdroid.py]

    A shallow embedding of the updater service: the line-oriented patching of
    [config.yml] around each [fdroid] invocation, the artifact fetcher with
    its repo-to-package map, the fastlane metadata harvester and reconciler,
    and the polling loop of [main].

    Text is modelled as a list of characters (code points below 256); files
    opened in text mode are read through Python's universal-newline
    translation and split by [readlines]. *)

From Stdlib Require Import List Ascii String Bool Arith ZArith Lia.
Import ListNotations.

Set Implicit Arguments.

(** ** Text, lines and the string methods the script relies on *)

Definition text := list ascii.

Definition T (s : string) : text := list_ascii_of_string s.

Definition LF : ascii := "010"%char.
Definition CR : ascii := "013"%char.

Definition is_LF (c : ascii) : bool := Ascii.eqb c LF.
Definition is_CR (c : ascii) : bool := Ascii.eqb c CR.

(** [open(path, 'r')] uses [newline=None]: on input, [\r\n] and a lone [\r]
    both arrive as [\n]. *)
Fixpoint universal_newlines (s : text) : text :=
  match s with
  | [] => []
  | c :: r =>
      if is_CR c
      then LF :: match r with
                 | [] => []
                 | d :: r' => if is_LF d then universal_newlines r'
                              else universal_newlines r
                 end
      else c :: universal_newlines r
  end.

(** Splitting a translated text into lines, each keeping its terminator. *)
Fixpoint keepends (s : text) : list text :=
  match s with
  | [] => []
  | c :: r =>
      if is_LF c then [c] :: keepends r
      else match keepends r with
           | [] => [[c]]
           | l :: ls => (c :: l) :: ls
           end
  end.

(** [f.readlines()] on a file opened with mode ['r']. *)
Definition readlines (file : text) : list text :=
  keepends (universal_newlines file).

(** [s.startswith(p)] *)
Fixpoint startswith (p s : text) : bool :=
  match p, s with
  | [], _ => true
  | _ :: _, [] => false
  | a :: p', b :: s' => Ascii.eqb a b && startswith p' s'
  end.

(** [p in s] for strings: [p] occurs as a contiguous run of [s]. *)
Fixpoint str_in (p s : text) : bool :=
  startswith p s ||
  match s with
  | [] => false
  | _ :: s' => str_in p s'
  end.

(** [str.isspace] on one character, for code points below 256. *)
Definition isspace (c : ascii) : bool :=
  let n := nat_of_ascii c in
  ((9 <=? n) && (n <=? 13)) || ((28 <=? n) && (n <=? 32))
  || (n =? 133) || (n =? 160).

Fixpoint lstrip (s : text) : text :=
  match s with
  | [] => []
  | c :: r => if isspace c then lstrip r else s
  end.

Definition rstrip (s : text) : text := rev (lstrip (rev s)).

(** [s.strip()] *)
Definition strip (s : text) : text := rstrip (lstrip s).

(** ** ConfigPatcher: the marker-delimited block of [config.yml] *)

Module Config.

Definition MARKER : text := T "--- TEMPORARY KEYSTORE CONFIG".

(** ['--- TEMPORARY KEYSTORE CONFIG' in line] *)
Definition is_marker_line (line : text) : bool := str_in MARKER line.

(** [any('--- TEMPORARY KEYSTORE CONFIG' in line for line in lines)] *)
Definition has_marker (lines : list text) : bool := existsb is_marker_line lines.

(** The rewriting loop used at both ends of [run_fdroid_update]:
    [for line in lines: if MARKER in line: break; f.write(line)]
    on a file just opened with mode ['w']. *)
Fixpoint write_until_marker (lines : list text) : text :=
  match lines with
  | [] => []
  | line :: rest =>
      if is_marker_line line then []
      else line ++ write_until_marker rest
  end.

(** The lines that loop writes, as a list. *)
Fixpoint before_marker (lines : list text) : list text :=
  match lines with
  | [] => []
  | line :: rest =>
      if is_marker_line line then [] else line :: before_marker rest
  end.

(** Entry step (lines 307-316): clean up a block left by a crashed run. *)
Definition cleanup_leftover (file : text) : text :=
  let lines := readlines file in
  if has_marker lines then write_until_marker lines else file.

(** The three values read from the environment, each defaulting to [''] . *)
Record Environ := {
  FDROID_KEY_ALIAS : text;
  FDROID_KEYSTORE_PASS : text;
  FDROID_KEY_PASS : text
}.

(** The f-string of lines 327-333; it opens with a newline. *)
Definition keystore_config (e : Environ) : text :=
  [LF] ++ T "# --- TEMPORARY KEYSTORE CONFIG (AUTO-GENERATED) ---" ++ [LF]
  ++ T "keystore: /app/config/keystore.jks" ++ [LF]
  ++ T "repo_keyalias: " ++ FDROID_KEY_ALIAS e ++ [LF]
  ++ T "keystorepass: " ++ FDROID_KEYSTORE_PASS e ++ [LF]
  ++ T "keypass: " ++ FDROID_KEY_PASS e ++ [LF].

(** [any(line.strip().startswith('keystore:') for line in config_lines)] *)
Definition has_keystore (config_lines : list text) : bool :=
  existsb (fun line => startswith (T "keystore:") (strip line)) config_lines.

(** Lines 318-336: returns the file after the optional append (mode ['a'])
    and the flag [added_config]. *)
Definition add_config (e : Environ) (file : text) : text * bool :=
  if has_keystore (readlines file) then (file, false)
  else (file ++ keystore_config e, true).

(** The [finally] block, lines 347-356. *)
Definition remove_config (added_config : bool) (file : text) : text :=
  if added_config then write_until_marker (readlines file) else file.

(** The whole effect of one invocation on an existing [config.yml]; the
    subprocess between patch and unpatch does not write the file, and the
    [finally] block runs whether it returned or raised. *)
Definition patch_and_restore (e : Environ) (file : text) : text :=
  let (patched, added_config) := add_config e (cleanup_leftover file) in
  remove_config added_config patched.

End Config.

(** ** Python dictionaries keyed by strings

    A [dict] keeps its keys in insertion order and assigning to a key that is
    already there keeps the key's position, so it is an association list with
    update in place. *)

Definition text_eqb (a b : text) : bool :=
  if list_eq_dec ascii_dec a b then true else false.

Definition dict (V : Type) := list (text * V).

Fixpoint dict_get {V} (d : dict V) (k : text) : option V :=
  match d with
  | [] => None
  | (k', v) :: r => if text_eqb k k' then Some v else dict_get r k
  end.

(** [k in d] *)
Definition dict_mem {V} (d : dict V) (k : text) : bool :=
  match dict_get d k with Some _ => true | None => false end.

(** [d[k] = v] *)
Fixpoint dict_set {V} (d : dict V) (k : text) (v : V) : dict V :=
  match d with
  | [] => [(k, v)]
  | (k', v') :: r =>
      if text_eqb k k' then (k', v) :: r else (k', v') :: dict_set r k v
  end.

Fixpoint dict_remove {V} (d : dict V) (k : text) : dict V :=
  match d with
  | [] => []
  | (k', v') :: r =>
      if text_eqb k k' then dict_remove r k else (k', v') :: dict_remove r k
  end.

(** ** IdentityStore: [/data/repo_package_map.json]

    The script writes a flat JSON object from repository slug to package
    name.  The content of the file is modelled at the level of JSON tokens,
    which is also the sequence of pieces [json.dump] hands to the file
    object.  Objects and strings are spelled out; any other JSON value (a
    number, an array, [true], [false], [null]) is one token that carries
    what the script can observe of the value [json.load] makes of it. *)

Module Store.

(** A loaded value that is neither a string nor a dictionary, as the script
    meets it. *)
Record other := {
  is_falsy : bool;                 (* [not v] *)
  printed : text;                  (* [str(v)], as an f-string shows it *)
  has_item : text -> option bool   (* [repo in v]; [None] stands for the
                                      [TypeError] of a value that is not
                                      iterable *)
}.

Inductive token :=
| TOpen                 (* { *)
| TString (s : text)    (* a quoted string, key or value *)
| TColon                (* : *)
| TComma                (* , *)
| TClose                (* } *)
| TOther (j : other).   (* any other complete value *)

Definition document := list token.

(** [json.dump(repo_package_map, f)] on a dictionary of strings: the pieces
    written, in order. *)
Fixpoint dump_items (first : bool) (d : dict text) : document :=
  match d with
  | [] => []
  | (k, v) :: r =>
      (if first then [] else [TComma])
      ++ [TString k; TColon; TString v] ++ dump_items false r
  end.

Definition json_dump (d : dict text) : document :=
  [TOpen] ++ dump_items true d ++ [TClose].

(** The flat case of loading: [json_load doc = Some d] when the document is
    one complete object whose members are all strings, the shape the script
    itself writes, with [d] its content.  A repeated key keeps its first
    position and its last value, as in Python.  ([json.load] itself is
    [json_load_value] below, which also accepts the other values.) *)
Fixpoint load_members (acc : dict text) (doc : document) : option (dict text) :=
  match doc with
  | [TClose] => Some acc
  | TComma :: TString k :: TColon :: TString v :: rest =>
      load_members (dict_set acc k v) rest
  | _ => None
  end.

Definition json_load (doc : document) : option (dict text) :=
  match doc with
  | [TOpen; TClose] => Some []
  | TOpen :: TString k :: TColon :: TString v :: rest =>
      load_members [(k, v)] rest
  | _ => None
  end.

(** The entries of the map file when it holds a flat object of strings,
    and no entry otherwise. *)
Definition load_map (map_file : option document) : dict text :=
  match map_file with
  | None => []
  | Some doc =>
      match json_load doc with
      | Some d => d
      | None => []
      end
  end.

(** The whole save of a flat map, as the rest of the script sees it. *)
Definition save_map (d : dict text) : option document := Some (json_dump d).

(** A value [json.load] can return from a file of these tokens. *)
#[warnings="-register-all"]
Inductive py :=
| PStr (s : text)
| PDict (d : list (text * py))
| POther (j : other).

(** A flat map as a Python value. *)
Definition lift (d : dict text) : dict py :=
  map (fun kv => (fst kv, PStr (snd kv))) d.

(** [json.dump(value, f)]: the pieces written, in order. *)
Fixpoint dump_value (v : py) : document :=
  match v with
  | PStr s => [TString s]
  | POther j => [TOther j]
  | PDict d =>
      [TOpen]
      ++ (fix items (first : bool) (d : list (text * py)) : document :=
            match d with
            | [] => []
            | (k, x) :: r =>
                (if first then [] else [TComma])
                ++ [TString k; TColon] ++ dump_value x ++ items false r
            end) true d
      ++ [TClose]
  end.

(** The members of a dictionary as [dump_value] writes them. *)
Definition dump_members (first : bool) (d : dict py) : document :=
  (fix items (first : bool) (d : list (text * py)) : document :=
     match d with
     | [] => []
     | (k, x) :: r =>
         (if first then [] else [TComma])
         ++ [TString k; TColon] ++ dump_value x ++ items false r
     end) first d.

(** [json.load(f)]: a value and the tokens after it; [fuel] bounds the
    nesting and the number of members. *)
Fixpoint parse_value (fuel : nat) (doc : document) : option (py * document) :=
  match fuel with
  | O => None
  | S n =>
      match doc with
      | TString s :: rest => Some (PStr s, rest)
      | TOther j :: rest => Some (POther j, rest)
      | TOpen :: TClose :: rest => Some (PDict [], rest)
      | TOpen :: TString k :: TColon :: rest =>
          match parse_value n rest with
          | Some (x, rest') => parse_members n [(k, x)] rest'
          | None => None
          end
      | _ => None
      end
  end
with parse_members (fuel : nat) (acc : dict py) (doc : document)
    : option (py * document) :=
  match fuel with
  | O => None
  | S n =>
      match doc with
      | TClose :: rest => Some (PDict acc, rest)
      | TComma :: TString k :: TColon :: rest =>
          match parse_value n rest with
          | Some (x, rest') => parse_members n (dict_set acc k x) rest'
          | None => None
          end
      | _ => None
      end
  end.

(** [json.load(f)]: [None] stands for [JSONDecodeError], raised unless the
    file is exactly one value. *)
Definition json_load_value (doc : document) : option py :=
  match parse_value (S (List.length doc)) doc with
  | Some (v, []) => Some v
  | _ => None
  end.

(** Lines 46-55 and 190-197: start from [{}], replace it by the loaded value
    when the file exists and parses, swallow any exception. *)
Definition load_value (map_file : option document) : py :=
  match map_file with
  | None => PDict []
  | Some doc =>
      match json_load_value doc with
      | Some v => v
      | None => PDict []
      end
  end.

(** Lines 105-108 as the rest of the script sees them. *)
Definition save_value (v : py) : option document := Some (dump_value v).

(** [repo in repo_package_map]: a key of a dictionary, a part of a
    string; [None] stands for the [TypeError] of a value that is not
    iterable. *)
Definition py_contains (v : py) (k : text) : option bool :=
  match v with
  | PDict d => Some (dict_mem d k)
  | PStr s => Some (str_in k s)
  | POther j => has_item j k
  end.

(** [repo_package_map[repo] = x]: [None] stands for the [TypeError] of a
    value that does not take the assignment (a string, a list indexed by a
    string, a number, [None]). *)
Definition py_setitem (v : py) (k : text) (x : py) : option py :=
  match v with
  | PDict d => Some (PDict (dict_set d k x))
  | PStr _ | POther _ => None
  end.

(** What a save does to the file system, one primitive at a time. *)
Inductive path := MapFile | TempFile.

Inductive fs_op :=
| OpenTruncate (p : path)             (* open(p, 'w') *)
| WriteChunk (p : path) (t : token)   (* f.write(chunk) *)
| Close (p : path)                    (* leaving the [with] block *)
| Replace (src dst : path).           (* os.replace(src, dst) *)

(** Lines 105-108: [with open(map_file, 'w') as f: json.dump(map, f)]. *)
Definition save_ops (v : py) : list fs_op :=
  OpenTruncate MapFile :: map (WriteChunk MapFile) (dump_value v)
  ++ [Close MapFile].

(** The two files a save could touch, and what the open file object holds
    in its buffer, not yet handed to the operating system. *)
Record files := {
  map_file : option document;
  temp_file : option document;
  pending : document
}.

Definition read_file (fs : files) (p : path) : option document :=
  match p with MapFile => map_file fs | TempFile => temp_file fs end.

Definition write_file (fs : files) (p : path) (c : option document)
    (buffer : document) : files :=
  match p with
  | MapFile => {| map_file := c; temp_file := temp_file fs; pending := buffer |}
  | TempFile => {| map_file := map_file fs; temp_file := c; pending := buffer |}
  end.

(** Writing out the buffer. *)
Definition flush (fs : files) (p : path) : files :=
  match read_file fs p with
  | Some doc => write_file fs p (Some (doc ++ pending fs)) []
  | None => fs
  end.

(** The file object is buffered: a write goes to the buffer, and the buffer
    is written out when the file object decides to ([flush_now], which
    depends on sizes that are not modelled) and in any case on closing. *)
Definition apply_op (flush_now : document -> bool) (fs : files) (op : fs_op)
    : files :=
  match op with
  | OpenTruncate p => write_file fs p (Some []) []
  | WriteChunk p t =>
      let fs' := {| map_file := map_file fs; temp_file := temp_file fs;
                    pending := pending fs ++ [t] |} in
      if flush_now (pending fs') then flush fs' p else fs'
  | Close p => flush fs p
  | Replace src dst =>
      match read_file fs src with
      | Some doc =>
          write_file (write_file fs dst (Some doc) (pending fs)) src None
                     (pending fs)
      | None => fs
      end
  end.

Definition apply_ops (flush_now : document -> bool) (fs : files)
    (ops : list fs_op) : files :=
  fold_left (apply_op flush_now) ops fs.

(** What a reader of the map file can see while [ops] run: the file after
    each primitive. *)
Fixpoint observations (flush_now : document -> bool) (fs : files)
    (ops : list fs_op) : list (option document) :=
  match ops with
  | [] => []
  | op :: r =>
      let fs' := apply_op flush_now fs op in
      map_file fs' :: observations flush_now fs' r
  end.

(** The save the specification describes, for comparison with [save_ops]:
    the complete document goes to a temporary file, which then replaces the
    target in one step. *)
Definition spec_save_ops (v : py) : list fs_op :=
  OpenTruncate TempFile :: map (WriteChunk TempFile) (dump_value v)
  ++ [Close TempFile; Replace TempFile MapFile].

End Store.

(** ** The world the script acts on *)

(** What androguard finds when it opens an artifact: [APK(path).get_package()]
    yields the package name, or the constructor raises. *)
Inductive apk_file := Apk (package : text) | BrokenApk.

(** A staged bundle, [/data/.temp_metadata_<owner>_<repo>/]. *)
Record Bundle := {
  title_txt : option text;
  short_description_txt : option text;
  full_description_txt : option text;
  icon_png : bool;
  phoneScreenshots : option (list nat)   (* [n] stands for [n.png] *)
}.

(** A published media file of a package. *)
Inductive asset_file := IconPng | ScreenshotPng (n : nat).

(** What [yaml.safe_load] makes of a record file: [None] for an empty
    document, a mapping, or something else (a scalar, a sequence, or text it
    rejects by raising).  Field values are carried as text. *)
Inductive yaml_doc := YNull | YMap (d : dict text) | YOther (truthy : bool) | YInvalid.

(** [repos.json]: read with [json.load], which may raise. *)
Inductive repos_file := ReposMalformed | Repos (repos : list text).

Inductive exn :=
| HTTPError (code : nat)
| URLError
| JSONDecodeError
| ValueError
| TypeError
| YAMLError
| OSError
| AttributeError
| OverflowError
| CalledProcessError.

Inductive message :=
| MStartingCheck | MReposNotFound | MChecking (repo : text)
| MAlreadyExists (filename : text) | MDownloading (filename : text)
| MDownloaded (filename : text) | MMapped (repo package : text)
| MWarnExtract (filename : text) | MErrHTTP (repo : text) (code : nat)
| MErrProcess (repo : text) (e : exn)
| MNewApks | MNoNewApks | MCheckComplete
| MFetchingMetadata (repo : text) | MFoundMetadata (branch : text)
| MFetched (name : text) | MFetchedScreenshot (i : nat)
| MErrHTTPCode (code : nat) | MErr (e : exn)
| MNoMetadata
| MWarnNoYaml | MWarnNoMatch (dir_name : text) | MApplying (package : text)
| MWarnNoRecord (package : text) | MApplied (package : text)
| MErrApplying (e : exn)
| MPass1 | MPass2 | MConfigNotFound | MCleaningLeftover
| MRunningUpdate | MSigning | MSigned
| MLoopCrashed (e : exn) | MSleeping.

Inductive event :=
| Log (m : message)              (* a line printed by [log] *)
| Traceback                      (* traceback.print_exc() *)
| CopyResources                  (* the body of copy_resources *)
| FdroidUpdate                   (* fdroid update -q --create-metadata --pretty *)
| FdroidSignindex                (* fdroid signindex -q *)
| Sleep.                         (* time.sleep(poll_interval) is called *)

(** The files under [/app/config] and [/data] the script reads and writes,
    and everything it has printed or started so far (most recent last). *)
Record World := {
  repos_json : option repos_file;             (* /app/config/repos.json *)
  app_config_yml : option text;               (* /app/config/config.yml *)
  config_yml : option text;                   (* /data/config.yml *)
  repo_dir : dict apk_file;                   (* /data/repo/<filename> *)
  repo_package_map_json : option Store.document;
  temp_metadata : dict Bundle;                (* keyed by the directory name
                                                 after [.temp_metadata_] *)
  metadata : dict yaml_doc;                   (* /data/metadata/<package>.yml *)
  published : list (text * asset_file);       (* /data/metadata/<package>/en-US/<file> *)
  trace : list event
}.

(** What [urlretrieve(url, target)] does: it raises before the target is
    opened, or it raises after the target was opened for writing and leaves
    what was written so far, or it stores the whole file. *)
Inductive fetched (A : Type) :=
| Missing (e : exn)
| Broken (e : exn) (remains : A)
| Fetched (a : A).
Arguments Missing {A} e.
Arguments Broken {A} e remains.
Arguments Fetched {A} a.

Definition is_fetched {A} (f : fetched A) : bool :=
  match f with Fetched _ => true | _ => false end.

(** The file at the target afterwards, if there is one. *)
Definition file_left {A} (f : fetched A) : option A :=
  match f with
  | Missing _ => None
  | Broken _ remains => Some remains
  | Fetched a => Some a
  end.

(** One release asset and what [urlretrieve] does with its download URL. *)
Record Asset := { name : text; payload : fetched apk_file }.

(** The release host's answer to [releases/latest]: an exception out of
    [urlopen] or [json.loads], or the asset list of the release. *)
Inductive release_reply :=
| ReleaseError (e : exn)
| Release (assets : list Asset).

(** The raw-content host's answer for one repository and branch. *)
Inductive title_reply :=
| TitleFound (body : text) | TitleError (e : exn).

Record Fastlane := {
  title : title_reply;
  short_description : fetched text;
  full_description : fetched text;
  icon : fetched unit;
  screenshot : nat -> fetched unit
}.

(** Everything outside the script during one polling cycle: the two hosts,
    the [fdroid] tool, the environment and whether PyYAML was importable.
    [fdroid update] is given the artifacts and the records and returns the
    records it leaves, or [None] for a non-zero exit status; it does not write
    [config.yml].  [format_dict] is how the interpreter prints a dictionary
    in an f-string; nothing is assumed about it. *)
Record Outside := {
  latest_release : text -> release_reply;
  fastlane : text -> text -> Fastlane;        (* repo, branch *)
  fdroid_update : dict apk_file -> dict yaml_doc -> option (dict yaml_doc);
  fdroid_signindex : bool;
  environ : Config.Environ;
  yaml : bool;
  format_dict : dict Store.py -> text         (* str() of a dictionary *)
}.

(** ** A state-and-exception monad for the imperative code *)

Inductive result (A : Type) := Done (a : A) | Raised (e : exn).
Arguments Done {A} a.
Arguments Raised {A} e.

Definition M (S A : Type) := S -> result A * S.

Definition ret {S A} (a : A) : M S A := fun s => (Done a, s).

Definition bind {S A B} (m : M S A) (k : A -> M S B) : M S B :=
  fun s => match m s with
           | (Done a, s') => k a s'
           | (Raised e, s') => (Raised e, s')
           end.

Definition raise {S A} (e : exn) : M S A := fun s => (Raised e, s).

Definition get {S} : M S S := fun s => (Done s, s).

Definition modify {S} (f : S -> S) : M S unit := fun s => (Done tt, f s).

(** [try: m except Exception as e: handler(e)] *)
Definition try_except {S A} (m : M S A) (handler : exn -> M S A) : M S A :=
  fun s => match m s with
           | (Done a, s') => (Done a, s')
           | (Raised e, s') => handler e s'
           end.

(** [try: m finally: fin] *)
Definition try_finally {S A} (m : M S A) (fin : M S unit) : M S A :=
  fun s => match m s with
           | (r, s') =>
               match fin s' with
               | (Done _, s'') => (r, s'')
               | (Raised e, s'') => (Raised e, s'')
               end
           end.

Declare Scope monad_scope.
Delimit Scope monad_scope with monad.
Notation "x <- m ;; k" := (bind m (fun x => k))
  (at level 61, m at next level, right associativity) : monad_scope.
Notation "m ;; k" := (bind m (fun _ => k))
  (at level 61, right associativity) : monad_scope.
Open Scope monad_scope.

(** [for x in xs: body(x)] *)
Fixpoint for_each {S A} (xs : list A) (body : A -> M S unit) : M S unit :=
  match xs with
  | [] => ret tt
  | x :: r => body x ;; for_each r body
  end.

Definition emit (ev : event) (w : World) : World :=
  {| repos_json := repos_json w; app_config_yml := app_config_yml w;
     config_yml := config_yml w; repo_dir := repo_dir w;
     repo_package_map_json := repo_package_map_json w;
     temp_metadata := temp_metadata w; metadata := metadata w;
     published := published w; trace := trace w ++ [ev] |}.

Definition log (m : message) : M World unit := modify (emit (Log m)).

Definition set_config_yml (c : option text) (w : World) : World :=
  {| repos_json := repos_json w; app_config_yml := app_config_yml w;
     config_yml := c; repo_dir := repo_dir w;
     repo_package_map_json := repo_package_map_json w;
     temp_metadata := temp_metadata w; metadata := metadata w;
     published := published w; trace := trace w |}.

Definition set_repo_dir (d : dict apk_file) (w : World) : World :=
  {| repos_json := repos_json w; app_config_yml := app_config_yml w;
     config_yml := config_yml w; repo_dir := d;
     repo_package_map_json := repo_package_map_json w;
     temp_metadata := temp_metadata w; metadata := metadata w;
     published := published w; trace := trace w |}.

Definition set_repo_package_map_json (c : option Store.document) (w : World) : World :=
  {| repos_json := repos_json w; app_config_yml := app_config_yml w;
     config_yml := config_yml w; repo_dir := repo_dir w;
     repo_package_map_json := c;
     temp_metadata := temp_metadata w; metadata := metadata w;
     published := published w; trace := trace w |}.

Definition set_temp_metadata (t : dict Bundle) (w : World) : World :=
  {| repos_json := repos_json w; app_config_yml := app_config_yml w;
     config_yml := config_yml w; repo_dir := repo_dir w;
     repo_package_map_json := repo_package_map_json w;
     temp_metadata := t; metadata := metadata w;
     published := published w; trace := trace w |}.

Definition set_metadata (m : dict yaml_doc) (w : World) : World :=
  {| repos_json := repos_json w; app_config_yml := app_config_yml w;
     config_yml := config_yml w; repo_dir := repo_dir w;
     repo_package_map_json := repo_package_map_json w;
     temp_metadata := temp_metadata w; metadata := m;
     published := published w; trace := trace w |}.

Definition set_published (p : list (text * asset_file)) (w : World) : World :=
  {| repos_json := repos_json w; app_config_yml := app_config_yml w;
     config_yml := config_yml w; repo_dir := repo_dir w;
     repo_package_map_json := repo_package_map_json w;
     temp_metadata := temp_metadata w; metadata := metadata w;
     published := p; trace := trace w |}.

(** [s.endswith(suffix)] *)
Definition endswith (suffix s : text) : bool := startswith (rev suffix) (rev s).

(** [s.split(sep)] for a one-character separator. *)
Fixpoint split (sep : ascii) (s : text) : list text :=
  match s with
  | [] => [[]]
  | c :: r =>
      if Ascii.eqb c sep then [] :: split sep r
      else match split sep r with
           | [] => [[c]]
           | p :: ps => (c :: p) :: ps
           end
  end.

(** [s.replace(a, b)] for one-character [a] and [b]. *)
Definition replace_char (a b : ascii) (s : text) : text :=
  map (fun c => if Ascii.eqb c a then b else c) s.

(** [s.replace(old, '')] for a non-empty [old]: occurrences are removed from
    left to right without overlap; [skip] counts the characters of a match
    still to be dropped. *)
Fixpoint remove_all_from (skip : nat) (old s : text) : text :=
  match s with
  | [] => []
  | c :: r =>
      match skip with
      | S k => remove_all_from k old r
      | O => if startswith old s then remove_all_from (List.length old - 1) old r
             else c :: remove_all_from 0 old r
      end
  end.

Definition remove_all (old s : text) : text := remove_all_from 0 old s.

(** ** ArtifactFetcher: [fetch_apks] *)

Module Fetcher.

(** The locals the loops of [fetch_apks] mutate, next to the world. *)
Record Frame := {
  world : World;
  downloaded : bool;
  repo_package_map : Store.py
}.

Definition in_world {A} (m : M World A) : M Frame A :=
  fun f => let (r, w') := m (world f) in
           (r, {| world := w'; downloaded := downloaded f;
                  repo_package_map := repo_package_map f |}).

Definition set_downloaded (b : bool) (f : Frame) : Frame :=
  {| world := world f; downloaded := b; repo_package_map := repo_package_map f |}.

Definition set_repo_package_map (m : Store.py) (f : Frame) : Frame :=
  {| world := world f; downloaded := downloaded f; repo_package_map := m |}.

(** Lines 89-97: an entry is written only for a repository the map does not
    contain and an artifact that exists locally; an artifact androguard
    cannot read, or a loaded value that does not take the assignment, ends
    in the warning of line 97.  The test [repo not in repo_package_map] of
    line 89 is outside the inner [try]: on a loaded value that is not
    iterable its [TypeError] leaves the loop over the assets. *)
Definition extract_package (repo filename : text) : M Frame unit :=
  f <- get ;;
  match Store.py_contains (repo_package_map f) repo with
  | None => raise TypeError
  | Some true => ret tt
  | Some false =>
      match dict_get (repo_dir (world f)) filename with
      | Some (Apk package_name) =>
          match Store.py_setitem (repo_package_map f) repo
                  (Store.PStr package_name) with
          | Some m =>
              modify (set_repo_package_map m) ;;
              in_world (log (MMapped repo package_name))
          | None => in_world (log (MWarnExtract filename))
          end
      | Some BrokenApk => in_world (log (MWarnExtract filename))
      | None => ret tt
      end
  end.

(** The body of the loop over assets, lines 73-97. *)
Definition fetch_asset (repo : text) (asset : Asset) : M Frame unit :=
  if negb (endswith (T ".apk") (name asset)) then ret tt
  else
    let filename := name asset in
    (f <- get ;;
     match dict_get (repo_dir (world f)) filename with
     | Some _ => in_world (log (MAlreadyExists filename))
     | None =>
         in_world (log (MDownloading filename)) ;;
         match payload asset with
         | Missing e => raise e
         | Broken e remains =>
             in_world (modify (fun w => set_repo_dir
                                 (dict_set (repo_dir w) filename remains) w)) ;;
             raise e
         | Fetched file =>
             in_world (modify (fun w => set_repo_dir
                                 (dict_set (repo_dir w) filename file) w)) ;;
             in_world (log (MDownloaded filename)) ;;
             modify (set_downloaded true)
         end
     end) ;;
    extract_package repo filename.

(** The body of the loop over repositories, lines 57-103. *)
Definition check_repo (o : Outside) (repo : text) : M Frame unit :=
  in_world (log (MChecking repo)) ;;
  try_except
    (match latest_release o repo with
     | ReleaseError e => raise e
     | Release assets => for_each assets (fetch_asset repo)
     end)
    (fun e =>
       match e with
       | HTTPError code => in_world (log (MErrHTTP repo code))
       | _ => in_world (log (MErrProcess repo e)) ;;
              in_world (modify (emit Traceback))
       end).

Definition fetch_apks (o : Outside) : M World (bool * list text) :=
  fun w =>
    match repos_json w with
    | None => (log MReposNotFound ;; ret (false, [])) w
    | Some ReposMalformed => (Raised JSONDecodeError, w)
    | Some (Repos repos) =>
        let f0 := {| world := w; downloaded := false;
                     repo_package_map :=
                       Store.load_value (repo_package_map_json w) |} in
        match for_each repos (check_repo o) f0 with
        | (Done _, f) =>
            (Done (downloaded f, repos),
             set_repo_package_map_json
               (Store.save_value (repo_package_map f)) (world f))
        | (Raised e, f) => (Raised e, world f)
        end
    end.

End Fetcher.

(** ** MetadataHarvester: [fetch_fastlane_metadata] *)

Module Harvester.

Definition merge_numbers (old new : list nat) : list nat :=
  old ++ filter (fun n => negb (existsb (Nat.eqb n) old)) new.

(** Lines 162-168: screenshots 1 to 8, stopping at the first that fails. *)
Fixpoint fetch_screenshots (available : nat -> bool) (numbers : list nat) : list nat :=
  match numbers with
  | [] => []
  | i :: r => if available i then i :: fetch_screenshots available r else []
  end.

Definition or_else {A} (new old : option A) : option A :=
  match new with Some a => Some a | None => old end.

(** The screenshot files in the staging directory after the loop of lines
    162-168: those that downloaded, and what a download that broke off
    left. *)
Fixpoint screenshot_files (shots : nat -> fetched unit) (numbers : list nat)
    : list nat :=
  match numbers with
  | [] => []
  | i :: r =>
      match shots i with
      | Fetched _ => i :: screenshot_files shots r
      | Broken _ _ => [i]
      | Missing _ => []
      end
  end.

(** Lines 134-168: the directory is created if needed ([exist_ok=True], so
    files of an earlier bundle stay) and the files that download are
    written. *)
Definition stage (fl : Fastlane) (title : text) (old : option Bundle) : Bundle :=
  let prev := match old with
              | Some b => b
              | None => {| title_txt := None; short_description_txt := None;
                           full_description_txt := None; icon_png := false;
                           phoneScreenshots := None |}
              end in
  {| title_txt := Some title;
     short_description_txt :=
       or_else (file_left (short_description fl)) (short_description_txt prev);
     full_description_txt :=
       or_else (file_left (full_description fl)) (full_description_txt prev);
     icon_png :=
       match file_left (icon fl) with Some _ => true | None => icon_png prev end;
     phoneScreenshots :=
       Some (merge_numbers
               (match phoneScreenshots prev with Some l => l | None => [] end)
               (screenshot_files (screenshot fl) (seq 1 8))) |}.

(** The files of lines 137-156 that get their line [✓ name] (lines 150 and
    154): the title, and each of the others that was downloaded whole. *)
Definition fetched_names (fl : Fastlane) : list text :=
  [T "title.txt"]
  ++ (if is_fetched (short_description fl)
      then [T "short_description.txt"] else [])
  ++ (if is_fetched (full_description fl)
      then [T "full_description.txt"] else [])
  ++ (if is_fetched (icon fl) then [T "icon.png"] else []).

(** The loop over the two branches with its [break] and [else]. *)
Fixpoint try_branches (o : Outside) (repo owner repo_name : text)
    (branches : list text) : M World unit :=
  match branches with
  | [] => log MNoMetadata
  | branch :: rest =>
      match title (fastlane o repo branch) with
      | TitleFound body =>
          log (MFoundMetadata branch) ;;
          modify (fun w =>
            let key := owner ++ T "_" ++ repo_name in
            set_temp_metadata
              (dict_set (temp_metadata w) key
                 (stage (fastlane o repo branch) (strip body)
                        (dict_get (temp_metadata w) key))) w) ;;
          for_each (fetched_names (fastlane o repo branch))
                   (fun name => log (MFetched name)) ;;
          for_each (fetch_screenshots
                      (fun i => is_fetched (screenshot (fastlane o repo branch) i))
                      (seq 1 8))
                   (fun i => log (MFetchedScreenshot i))
      | TitleError (HTTPError code) =>
          (if Nat.eqb code 404 then ret tt else log (MErrHTTPCode code)) ;;
          try_branches o repo owner repo_name rest
      | TitleError e =>
          log (MErr e) ;;
          try_branches o repo owner repo_name rest
      end
  end.

(** The body of the loop over [repos]; unpacking [repo.split('/')] into two
    names raises [ValueError] for any other number of parts. *)
Definition harvest (o : Outside) (repo : text) : M World unit :=
  log (MFetchingMetadata repo) ;;
  match split "/" repo with
  | [owner; repo_name] =>
      try_branches o repo owner repo_name [T "main"; T "master"]
  | _ => raise ValueError
  end.

Definition fetch_fastlane_metadata (o : Outside) (repos : list text) : M World unit :=
  for_each repos (harvest o).

End Harvester.

(** ** MetadataReconciler: [apply_fastlane_metadata] *)

Module Reconciler.

(** What the loop body does with a value of the map: [not matched_package],
    the f-string [{matched_package}] and [metadata_dir / matched_package],
    which raises [TypeError] unless the value is a string. *)
Class PackageId (V : Type) := {
  falsy : V -> bool;
  shown : V -> text;
  joins_path : V -> bool
}.

(** A map whose values are all strings. *)
#[global] Instance text_id : PackageId text := {|
  falsy := fun s => match s with [] => true | _ => false end;
  shown := fun s => s;
  joins_path := fun _ => true
|}.

(** Any loaded map; [format_dict] prints a dictionary. *)
Definition py_id (format_dict : dict Store.py -> text) : PackageId Store.py := {|
  falsy := fun v =>
    match v with
    | Store.PStr [] | Store.PDict [] => true
    | Store.POther j => Store.is_falsy j
    | _ => false
    end;
  shown := fun v =>
    match v with
    | Store.PStr s => s
    | Store.PDict d => format_dict d
    | Store.POther j => Store.printed j
    end;
  joins_path := fun v =>
    match v with
    | Store.PStr _ => true
    | Store.PDict _ | Store.POther _ => false
    end
|}.

(** Lines 203-208: the first entry of the map, in its order, whose slug with
    ['/'] replaced by ['_'] equals [dir_name]; the loop variable [repo_slug]
    is left at that entry by the [break]. *)
Fixpoint find_match {V} (repo_package_map : dict V) (dir_name : text)
    : option (text * V) :=
  match repo_package_map with
  | [] => None
  | (repo_slug, package_id) :: rest =>
      if text_eqb dir_name (replace_char "/" "_" repo_slug)
      then Some (repo_slug, package_id)
      else find_match rest dir_name
  end.

(** [path.read_text()]: the file is opened in text mode, so its line ends
    arrive as [\n]. *)
Definition read_text (file : text) : text := universal_newlines file.

(** The three optional text fields, lines 226-232, each read with
    [read_text().strip()]. *)
Definition staged_fields (b : Bundle) : list (text * text) :=
  (match title_txt b with
   | Some t => [(T "Name", strip (read_text t))] | None => [] end)
  ++ (match short_description_txt b with
      | Some t => [(T "Summary", strip (read_text t))] | None => [] end)
  ++ (match full_description_txt b with
      | Some t => [(T "Description", strip (read_text t))] | None => [] end).

(** The four fields derived from the slug, lines 235-240. *)
Definition repo_fields (repo_slug : text) : list (text * text) :=
  match repo_slug with
  | [] => []
  | _ =>
      [(T "AuthorName", hd [] (split "/" repo_slug));
       (T "SourceCode", T "https://github.com/" ++ repo_slug);
       (T "WebSite", T "https://github.com/" ++ repo_slug);
       (T "IssueTracker", T "https://github.com/" ++ repo_slug ++ T "/issues")]
  end.

Definition assign_all (data : dict text) (fields : list (text * text)) : dict text :=
  fold_left (fun d kv => dict_set d (fst kv) (snd kv)) fields data.

(** Lines 222-243 on the loaded document: the record to dump, or the
    exception raised on the way. *)
Definition updated_record (loaded : yaml_doc) (fields : list (text * text))
    : exn + yaml_doc :=
  match loaded with
  | YInvalid => inl YAMLError
  | YNull | YOther false => inr (YMap (assign_all [] fields))
  | YMap d => inr (YMap (assign_all d fields))
  | YOther true =>
      match fields with
      | [] => inr (YOther true)
      | _ => inl TypeError
      end
  end.

Definition add_published (p : text * asset_file) (l : list (text * asset_file))
    : list (text * asset_file) :=
  if existsb (fun q => text_eqb (fst q) (fst p) &&
                       match snd q, snd p with
                       | IconPng, IconPng => true
                       | ScreenshotPng a, ScreenshotPng b => Nat.eqb a b
                       | _, _ => false
                       end) l
  then l else l ++ [p].

(** Lines 245-257. *)
Definition copy_media (package : text) (b : Bundle) (w : World) : World :=
  let files :=
    (if icon_png b then [IconPng] else [])
    ++ match phoneScreenshots b with
       | Some l => map ScreenshotPng l
       | None => []
       end in
  set_published
    (fold_left (fun l f => add_published (package, f) l) files (published w)) w.

(** The body of the loop over staged directories, lines 200-264, once
    [repo_package_map.items()] has returned.  The record is written at lines
    242-243, before the media directory is named at line 246. *)
Definition apply_bundle {V} {id : PackageId V} (repo_package_map : dict V)
    (entry : text * Bundle) : M World unit :=
  let (key, bundle) := entry in
  let dir_name := remove_all (T ".temp_metadata_") (T ".temp_metadata_" ++ key) in
  match find_match repo_package_map dir_name with
  | None => log (MWarnNoMatch dir_name)
  | Some (repo_slug, package_id) =>
      if falsy package_id then log (MWarnNoMatch dir_name)
      else
        let matched_package := shown package_id in
        log (MApplying matched_package) ;;
        w <- get ;;
        match dict_get (metadata w) matched_package with
        | None => log (MWarnNoRecord matched_package)
        | Some loaded =>
            try_except
              (match updated_record loaded
                       (staged_fields bundle ++ repo_fields repo_slug) with
               | inl e => raise e
               | inr data =>
                   modify (fun w => set_metadata
                             (dict_set (metadata w) matched_package data) w) ;;
                   if joins_path package_id then
                     modify (copy_media matched_package bundle) ;;
                     log (MApplied matched_package)
                   else raise TypeError
               end)
              (fun e => log (MErrApplying e) ;; modify (emit Traceback))
        end
  end.

(** Lines 266-268: [shutil.rmtree] on every staged directory. *)
Definition cleanup : M World unit := modify (set_temp_metadata []).

(** Lines 181-268.  A map file that holds anything but an object makes
    [.items()] raise [AttributeError] at line 204 for the first staged
    directory, outside every [try] of the function. *)
Definition apply_fastlane_metadata (o : Outside) : M World unit :=
  if negb (yaml o) then log MWarnNoYaml
  else
    w <- get ;;
    match Store.load_value (repo_package_map_json w) with
    | Store.PDict repo_package_map =>
        for_each (temp_metadata w)
                 (@apply_bundle _ (py_id (format_dict o)) repo_package_map)
    | Store.PStr _ | Store.POther _ =>
        for_each (temp_metadata w) (fun _ => raise AttributeError)
    end ;;
    cleanup.

End Reconciler.

(** ** IndexBuilder: [run_fdroid_update] *)

Module Builder.

(** [with open('config.yml', 'r') as f: f.readlines()] *)
Definition read_config : M World (list text) :=
  w <- get ;;
  match config_yml w with
  | Some file => ret (readlines file)
  | None => raise OSError
  end.

(** [subprocess.run(['fdroid', 'update', ...], check=True)] *)
Definition fdroid_update_cmd (o : Outside) : M World unit :=
  modify (emit FdroidUpdate) ;;
  w <- get ;;
  match fdroid_update o (repo_dir w) (metadata w) with
  | Some records => modify (set_metadata records)
  | None => raise CalledProcessError
  end.

(** [subprocess.run(['fdroid', 'signindex', '-q'], check=True)] *)
Definition fdroid_signindex_cmd (o : Outside) : M World unit :=
  modify (emit FdroidSignindex) ;;
  if fdroid_signindex o then ret tt else raise CalledProcessError.

(** Lines 296-299: copy the base configuration if [/data] has none. *)
Definition copy_config : M World unit :=
  w <- get ;;
  match config_yml w, app_config_yml w with
  | None, Some src => modify (set_config_yml (Some src))
  | _, _ => ret tt
  end.

(** Lines 307-316: clean up a block left over by a crashed run. *)
Definition entry_cleanup : M World unit :=
  lines <- read_config ;;
  if Config.has_marker lines then
    log MCleaningLeftover ;;
    modify (set_config_yml (Some (Config.write_until_marker lines)))
  else ret tt.

(** Lines 318-336: append the block unless a keystore is configured; the
    value is the flag [added_config]. *)
Definition add_keystore (o : Outside) : M World bool :=
  config_lines <- read_config ;;
  if Config.has_keystore config_lines then ret false
  else
    modify (fun w =>
      set_config_yml
        (Some (match config_yml w with Some file => file | None => [] end
               ++ Config.keystore_config (environ o))) w) ;;
    ret true.

(** Lines 347-356, the [finally] block. *)
Definition remove_keystore (added_config : bool) : M World unit :=
  if added_config then
    lines <- read_config ;;
    modify (set_config_yml (Some (Config.write_until_marker lines)))
  else ret tt.

(** Lines 338-345, the [try] block. *)
Definition build (o : Outside) (sign : bool) : M World unit :=
  log MRunningUpdate ;;
  fdroid_update_cmd o ;;
  if sign then
    log MSigning ;;
    fdroid_signindex_cmd o ;;
    log MSigned
  else ret tt.

Definition run_fdroid_update (o : Outside) (sign : bool) : M World unit :=
  copy_config ;;
  w <- get ;;
  match config_yml w with
  | None => log MConfigNotFound
  | Some _ =>
      entry_cleanup ;;
      added_config <- add_keystore o ;;
      try_finally (build o sign) (remove_keystore added_config)
  end.

End Builder.

(** ** Scheduler: the loop of [main] *)

Module Scheduler.

(** [copy_resources] copies static files below [/data]; the tree it copies
    holds none of the files followed here, so only its occurrence is kept. *)
Definition copy_resources : M World unit := modify (emit CopyResources).

(** The body of the [try] block, lines 370-398. *)
Definition update_check (o : Outside) : M World unit :=
  log MStartingCheck ;;
  r <- Fetcher.fetch_apks o ;;
  let (downloaded, repos) := r in
  (if (downloaded : bool) then
     log MNewApks ;;
     Harvester.fetch_fastlane_metadata o repos ;;
     copy_resources ;;
     log MPass1 ;;
     Builder.run_fdroid_update o false ;;
     Reconciler.apply_fastlane_metadata o ;;
     log MPass2 ;;
     Builder.run_fdroid_update o true
   else log MNoNewApks) ;;
  log MCheckComplete.

(** One iteration of [while True], lines 369-405, up to the call of
    [time.sleep]: the event [Sleep] records that the call is made.  Whether
    the call returns is [time_sleep] below. *)
Definition iteration (o : Outside) : M World unit :=
  try_except (update_check o)
             (fun e => log (MLoopCrashed e) ;; modify (emit Traceback)) ;;
  log MSleeping ;;
  modify (emit Sleep).

(** [time.sleep(secs)] on an integer, once called: it raises [ValueError]
    for a negative length and [OverflowError] for one beyond [sleep_max],
    the largest the platform converts to a timestamp; otherwise it
    returns. *)
Definition time_sleep (sleep_max secs : Z) : M World unit :=
  if Z.ltb secs 0 then raise ValueError
  else if Z.ltb sleep_max secs then raise OverflowError
  else ret tt.

(** The first [n] iterations of the loop; [outside c] is what the script
    meets during cycle [c], and [poll_interval] is the integer of lines
    361-364.  Line 405 is outside the [try] block: an exception of
    [time.sleep] ends the loop. *)
Fixpoint main_loop (sleep_max poll_interval : Z) (outside : nat -> Outside)
    (c n : nat) : M World unit :=
  match n with
  | O => ret tt
  | S k =>
      iteration (outside c) ;;
      time_sleep sleep_max poll_interval ;;
      main_loop sleep_max poll_interval outside (S c) k
  end.

End Scheduler.

(** ** Predicates used in the statements *)

Definition no_CR (s : text) : bool := forallb (fun c => negb (is_CR c)) s.

(** No line break of either kind. *)
Definition clean (s : text) : bool :=
  forallb (fun c => negb (is_LF c) && negb (is_CR c)) s.

(** The shape of what [readlines] returns: every line but the last ends in
    its only newline, the last may lack it but is not empty. *)
Inductive wf_lines : list text -> Prop :=
| wf_nil : wf_lines []
| wf_open b : b <> [] -> clean b = true -> wf_lines [b]
| wf_closed b ls : clean b = true -> wf_lines ls -> wf_lines ((b ++ [LF]) :: ls).

(** The configuration the invocation starts from, after the optional copy. *)
Definition base_config (w : World) : option text :=
  match config_yml w with
  | Some file => Some file
  | None => app_config_yml w
  end.

(** [restored file result]: [result] is [file] without the temporary block.
    What is kept of [file] is all of it, or, if one of its lines contains
    the marker, the lines before the first such line; [result] is that
    content as it is if one of its lines starts with [keystore:], and
    otherwise that content closed by one newline, its line ends read in
    text mode. *)
Definition restored (file result : text) : Prop :=
  exists kept,
    ((Config.has_marker (readlines file) = false /\ kept = file) \/
     (exists pre m post,
        readlines file = pre ++ m :: post /\
        Config.has_marker pre = false /\
        Config.is_marker_line m = true /\
        kept = List.concat pre)) /\
    result = if Config.has_keystore (readlines kept) then kept
             else universal_newlines (kept ++ [LF]).

(** A computation keeps a relation between the state it starts in and the
    state it ends in, and a computation never raises. *)
Definition preserves {S A} (R : S -> S -> Prop) (m : M S A) : Prop :=
  forall s, R s (snd (m s)).

Definition never_raises {S A} (m : M S A) : Prop :=
  forall s, exists a, fst (m s) = Done a.

(** Both copies of the configuration are as they were. *)
Definition same_config (w w' : World) : Prop :=
  config_yml w' = config_yml w /\ app_config_yml w' = app_config_yml w.

(** The repositories the harvester was started on, read off the trace. *)
Definition harvest_of (ev : event) : list text :=
  match ev with
  | Log (MFetchingMetadata repo) => [repo]
  | _ => []
  end.

Definition harvested (tr : list event) : list text := flat_map harvest_of tr.

(** Nothing was added to the list of harvested repositories. *)
Definition same_harvest (w w' : World) : Prop :=
  harvested (trace w') = harvested (trace w).

(** A relation on worlds, read on the frames of [fetch_apks]. *)
Definition on_world (R : World -> World -> Prop) (f f' : Fetcher.Frame) : Prop :=
  R (Fetcher.world f) (Fetcher.world f').

(** The keys of a dictionary, and the invariant of a Python [dict]: no key
    occurs twice. *)
Definition keys {V} (d : dict V) : list text := map fst d.

Definition unique_keys {V} (d : dict V) : Prop := NoDup (keys d).

(** A value as Python holds it: no dictionary in it has a key twice. *)
Fixpoint wf_py (v : Store.py) : Prop :=
  match v with
  | Store.PStr _ | Store.POther _ => True
  | Store.PDict d =>
      NoDup (map fst d) /\
      (fix all (d : list (text * Store.py)) : Prop :=
         match d with
         | [] => True
         | (_, x) :: r => wf_py x /\ all r
         end) d
  end.

(** Every entry of [m] is in [m'] with the same value. *)
Definition keeps_entries (m m' : dict text) : Prop :=
  forall s P, dict_get m s = Some P -> dict_get m' s = Some P.

(** A map of strings in a frame only grows, and stays a dictionary of
    strings. *)
Definition map_grows (f f' : Fetcher.Frame) : Prop :=
  forall m,
    Fetcher.repo_package_map f = Store.PDict (Store.lift m) ->
    unique_keys m ->
    exists m',
      Fetcher.repo_package_map f' = Store.PDict (Store.lift m') /\
      keeps_entries m m' /\ unique_keys m'.

(** A primitive of a save that writes the map file itself. *)
Definition writes_map_file_in_place (op : Store.fs_op) : Prop :=
  match op with
  | Store.OpenTruncate Store.MapFile | Store.WriteChunk Store.MapFile _
  | Store.Close Store.MapFile => True
  | _ => False
  end.

Definition is_close (t : Store.token) : bool :=
  match t with Store.TClose => true | _ => false end.

(** A line that ends in its only newline. *)
Definition closed_line (l : text) : Prop :=
  exists b, clean b = true /\ l = b ++ [LF].

(** The character does not occur in the text. *)
Definition lacks (c : ascii) (p : text) : bool :=
  forallb (fun a => negb (Ascii.eqb a c)) p.

(** The first two lines of the appended block, without their newlines. *)
Definition marker_line : text :=
  T "# --- TEMPORARY KEYSTORE CONFIG (AUTO-GENERATED) ---".

Definition keystore_line : text := T "keystore: /app/config/keystore.jks".

(** The same record files exist. *)
Definition same_record_files (w w' : World) : Prop :=
  keys (metadata w') = keys (metadata w).

(** Records and published media are as they were. *)
Definition same_records (w w' : World) : Prop :=
  metadata w' = metadata w /\ published w' = published w.

(** The field names the reconciler may assign. *)
Definition reconciled_fields : list text :=
  [T "Name"; T "Summary"; T "Description"; T "AuthorName"; T "SourceCode";
   T "WebSite"; T "IssueTracker"].

(** Every entry of [d] is in [d'] with the same value. *)
Definition dict_extends {V} (d d' : dict V) : Prop :=
  forall k v, dict_get d k = Some v -> dict_get d' k = Some v.

(** The artifacts whose download was completed, read off the trace. *)
Definition download_of (ev : event) : list text :=
  match ev with
  | Log (MDownloaded filename) => [filename]
  | _ => []
  end.

Definition downloads (tr : list event) : list text := flat_map download_of tr.

Definition nonempty {A} (l : list A) : bool :=
  match l with [] => false | _ => true end.

(** Between two frames of [fetch_apks]: the artifacts on disk are kept as
    they are, and the flag [downloaded] is set exactly when a download was
    completed. *)
Definition fetch_progress (f f' : Fetcher.Frame) : Prop :=
  dict_extends (repo_dir (Fetcher.world f)) (repo_dir (Fetcher.world f')) /\
  exists new,
    downloads (trace (Fetcher.world f'))
    = downloads (trace (Fetcher.world f)) ++ new /\
    Fetcher.downloaded f' = Fetcher.downloaded f || nonempty new.

(** The lines printed while one repository is being processed, after the
    line that announces it. *)
Definition asset_message (m : message) : bool :=
  match m with
  | MAlreadyExists _ | MDownloading _ | MDownloaded _ | MMapped _ _
  | MWarnExtract _ | MErrHTTP _ _ | MErrProcess _ _ => true
  | _ => false
  end.

(** The repositories announced by a "Checking" line, read off the trace. *)
Definition check_of (ev : event) : list text :=
  match ev with
  | Log (MChecking repo) => [repo]
  | _ => []
  end.

Definition checked (tr : list event) : list text := flat_map check_of tr.

Definition same_checked (w w' : World) : Prop :=
  checked (trace w') = checked (trace w).

(** The runs of the [fdroid] tool, read off the trace. *)
Definition is_tool_run (ev : event) : bool :=
  match ev with
  | FdroidUpdate | FdroidSignindex => true
  | _ => false
  end.

Definition tool_runs (tr : list event) : list event := filter is_tool_run tr.

(** Everything but the artifacts, the identity map and the printed lines is
    as it was, and the tool was not started. *)
Definition only_fetched (w w' : World) : Prop :=
  metadata w' = metadata w /\ temp_metadata w' = temp_metadata w /\
  published w' = published w /\ config_yml w' = config_yml w /\
  app_config_yml w' = app_config_yml w /\
  tool_runs (trace w') = tool_runs (trace w).

(** The name of the staging directory of a repository, after the prefix
    [.temp_metadata_]. *)
Definition staging_key (owner repo_name : text) : text :=
  owner ++ T "_" ++ repo_name.

(** A slug of the form [owner/project]. *)
Definition is_slug (repo : text) : bool :=
  match split "/" repo with
  | [_; _] => true
  | _ => false
  end.

(** ** Sample worlds *)

Definition quiet_outside (update_ok sign_ok : bool) (e : Config.Environ) : Outside :=
  {| latest_release := fun _ => Release [];
     fastlane := fun _ _ =>
       {| title := TitleError (HTTPError 404);
          short_description := Missing (HTTPError 404);
          full_description := Missing (HTTPError 404);
          icon := Missing (HTTPError 404);
          screenshot := fun _ => Missing (HTTPError 404) |};
     fdroid_update := fun _ records => if update_ok then Some records else None;
     fdroid_signindex := sign_ok;
     environ := e;
     yaml := true;
     format_dict := fun _ => [] |}.

Definition no_environ : Config.Environ :=
  {| Config.FDROID_KEY_ALIAS := []; Config.FDROID_KEYSTORE_PASS := [];
     Config.FDROID_KEY_PASS := [] |}.

Definition world_with_config (file : text) : World :=
  {| repos_json := None; app_config_yml := None; config_yml := Some file;
     repo_dir := []; repo_package_map_json := None; temp_metadata := [];
     metadata := []; published := []; trace := [] |}.

(** A base configuration without any keystore setting. *)
Definition plain_config : text :=
  T "repo_url: https://example.org/fdroid/repo" ++ [LF]
  ++ T "repo_name: Tracker" ++ [LF].

(** The same file as a crash between patch and unpatch leaves it. *)
Definition crashed_config : text :=
  plain_config ++ Config.keystore_config no_environ.

(** One configured repository whose latest release carries one new artifact
    and whose [main] branch has fastlane metadata. *)
Definition octo : text := T "octo/app".

Definition octo_release : release_reply :=
  Release [{| name := T "app-1.2.apk"; payload := Fetched (Apk (T "org.example.app")) |}].

Definition octo_fastlane : Fastlane :=
  {| title := TitleFound (T "My App" ++ [LF]);
     short_description := Fetched (T "A sample app");
     full_description := Missing (HTTPError 404); icon := Fetched tt;
     screenshot := fun n => if Nat.leb n 2 then Fetched tt
                            else Missing (HTTPError 404) |}.

(** A stand-in for [fdroid update --create-metadata]: it adds an empty record
    for every artifact whose package has none. *)
Definition create_metadata (artifacts : dict apk_file) (records : dict yaml_doc)
    : dict yaml_doc :=
  fold_left (fun rs entry =>
               match snd entry with
               | Apk package => if dict_mem rs package then rs
                                else dict_set rs package YNull
               | BrokenApk => rs
               end) artifacts records.

Definition octo_outside (update_ok yaml_ok : bool) : Outside :=
  {| latest_release := fun repo =>
       if text_eqb repo octo then octo_release else ReleaseError (HTTPError 404);
     fastlane := fun repo branch =>
       if text_eqb repo octo && text_eqb branch (T "main") then octo_fastlane
       else {| title := TitleError (HTTPError 404);
               short_description := Missing (HTTPError 404);
               full_description := Missing (HTTPError 404);
               icon := Missing (HTTPError 404);
               screenshot := fun _ => Missing (HTTPError 404) |};
     fdroid_update := fun artifacts records =>
       if update_ok then Some (create_metadata artifacts records) else None;
     fdroid_signindex := true;
     environ := no_environ;
     yaml := yaml_ok;
     format_dict := fun _ => [] |}.

Definition octo_world (base : option text) : World :=
  {| repos_json := Some (Repos [octo]); app_config_yml := base;
     config_yml := None; repo_dir := []; repo_package_map_json := None;
     temp_metadata := []; metadata := []; published := []; trace := [] |}.

(** The world of a cycle on [octo_world] with a base configuration, after the
    fetch and after the harvest, when the tool is going to fail. *)
Definition octo_fetched : World :=
  snd (Fetcher.fetch_apks (octo_outside false true)
         (emit (Log MStartingCheck) (octo_world (Some plain_config)))).

Definition octo_harvested : World :=
  snd (Harvester.fetch_fastlane_metadata (octo_outside false true) [octo]
         (emit (Log MNewApks) octo_fetched)).

(** A world in which one bundle for [octo/app] is staged and the map knows
    the package, with the given record files. *)
Definition octo_bundle : Bundle :=
  {| title_txt := Some (T "My App"); short_description_txt := None;
     full_description_txt := None; icon_png := false;
     phoneScreenshots := Some [] |}.

Definition staged_world (records : dict yaml_doc) : World :=
  {| repos_json := Some (Repos [octo]); app_config_yml := Some plain_config;
     config_yml := None; repo_dir := [(T "app-1.2.apk", Apk (T "org.example.app"))];
     repo_package_map_json :=
       Store.save_map [(octo, T "org.example.app")];
     temp_metadata := [(T "octo_app", octo_bundle)];
     metadata := records; published := []; trace := [] |}.

(** Two configured repositories: [octo/app] has a new artifact this cycle,
    the only artifact of [idle/app] is already in the repository directory. *)
Definition idle : text := T "idle/app".

Definition two_repo_outside : Outside :=
  {| latest_release := fun repo =>
       if text_eqb repo octo then octo_release
       else Release [{| name := T "idle-3.0.apk";
                        payload := Fetched (Apk (T "org.example.idle")) |}];
     fastlane := fastlane (octo_outside true true);
     fdroid_update := fdroid_update (octo_outside true true);
     fdroid_signindex := true;
     environ := no_environ;
     yaml := true;
     format_dict := fun _ => [] |}.

Definition two_repo_world : World :=
  {| repos_json := Some (Repos [octo; idle]); app_config_yml := Some plain_config;
     config_yml := None;
     repo_dir := [(T "idle-3.0.apk", Apk (T "org.example.idle"))];
     repo_package_map_json := Store.save_map [(idle, T "org.example.idle")];
     temp_metadata := []; metadata := []; published := []; trace := [] |}.

(** The release host is unreachable. *)
Definition offline_outside : Outside :=
  {| latest_release := fun _ => ReleaseError (HTTPError 503);
     fastlane := fastlane (octo_outside true true);
     fdroid_update := fdroid_update (octo_outside true true);
     fdroid_signindex := true;
     environ := no_environ;
     yaml := true;
     format_dict := fun _ => [] |}.

(** The latest release of [octo/app] now ships an artifact with another
    package name. *)
Definition renamed_outside : Outside :=
  {| latest_release := fun _ =>
       Release [{| name := T "app-2.0.apk";
                   payload := Fetched (Apk (T "org.example.renamed")) |}];
     fastlane := fastlane (octo_outside true true);
     fdroid_update := fdroid_update (octo_outside true true);
     fdroid_signindex := true;
     environ := no_environ;
     yaml := true;
     format_dict := fun _ => [] |}.

(** The world after a first fetch that mapped [octo/app]. *)
Definition octo_mapped : World :=
  snd (Fetcher.fetch_apks (octo_outside true true) (octo_world None)).

(** A map file cut short, as an interrupted write leaves it. *)
Definition truncated_map : Store.document :=
  removelast (Store.json_dump [(octo, T "org.example.app")]).

(** A base configuration that names a permanent keystore. *)
Definition signed_config : text :=
  plain_config ++ T "  keystore: /srv/keys/release.jks" ++ [LF].

(** A record as the skeleton pass leaves it, with a field of its own. *)
Definition skeleton_record : yaml_doc :=
  YMap [(T "Categories", T "System"); (T "Name", T "app")].

(** * Properties *)

(** ** Lines of a text file *)

Section Lines.

Lemma concat_keepends (s : text) : List.concat (keepends s) = s.
Proof.
  induction s as [|c r IH]; simpl; [reflexivity|].
  destruct (is_LF c); simpl; [now rewrite IH|].
  destruct (keepends r) as [|l ls]; simpl in *.
  - now rewrite <- IH.
  - now rewrite <- IH.
Qed.

Lemma universal_newlines_no_CR_aux (n : nat) :
  forall s, List.length s <= n -> no_CR (universal_newlines s) = true.
Proof.
  induction n as [|n IH]; intros [|c r] Hlen; simpl in *; try reflexivity; try lia.
  destruct (is_CR c) eqn:Ec; simpl.
  - destruct r as [|d r']; [reflexivity|].
    destruct (is_LF d); apply IH; simpl in *; lia.
  - rewrite Ec; simpl. apply IH; lia.
Qed.

Lemma universal_newlines_no_CR (s : text) : no_CR (universal_newlines s) = true.
Proof. apply (universal_newlines_no_CR_aux (n := List.length s)); lia. Qed.

Lemma universal_newlines_id (s : text) :
  no_CR s = true -> universal_newlines s = s.
Proof.
  induction s as [|c r IH]; simpl; [reflexivity|].
  intros H; apply andb_prop in H; destruct H as [Hc Hr].
  destruct (is_CR c); [discriminate|]. now rewrite IH.
Qed.

Lemma keepends_wf (s : text) : no_CR s = true -> wf_lines (keepends s).
Proof.
  induction s as [|c r IH]; simpl; [constructor|].
  intros H; apply andb_prop in H; destruct H as [Hc Hr].
  specialize (IH Hr).
  destruct (is_LF c) eqn:Ec.
  - apply Ascii.eqb_eq in Ec; subst c.
    apply (@wf_closed [] _); [reflexivity | assumption].
  - destruct (keepends r) as [|l ls].
    + apply wf_open; [discriminate|]. simpl. now rewrite Ec, Hc.
    + inversion IH as [|b Hne Hb|b ls' Hb Hls]; subst.
      * apply wf_open; [discriminate|]. simpl. now rewrite Ec, Hc.
      * apply (@wf_closed (c :: b) _); [|assumption].
        simpl. now rewrite Ec, Hc.
Qed.

Lemma readlines_wf (file : text) : wf_lines (readlines file).
Proof. apply keepends_wf, universal_newlines_no_CR. Qed.

Lemma keepends_open (b : text) :
  b <> [] -> clean b = true -> keepends b = [b].
Proof.
  induction b as [|c r IH]; [congruence|]. intros _ H. simpl in *.
  apply andb_prop in H; destruct H as [Hc Hr].
  destruct (is_LF c); [discriminate|].
  destruct r as [|d r']; [reflexivity|].
  rewrite IH; [reflexivity | discriminate | assumption].
Qed.

Lemma keepends_closed (b rest : text) :
  clean b = true -> keepends ((b ++ [LF]) ++ rest) = (b ++ [LF]) :: keepends rest.
Proof.
  induction b as [|c r IH]; intros H; simpl in *; [reflexivity|].
  apply andb_prop in H; destruct H as [Hc Hr].
  destruct (is_LF c); [discriminate|]. now rewrite (IH Hr).
Qed.

Lemma keepends_concat (ls : list text) :
  wf_lines ls -> keepends (List.concat ls) = ls.
Proof.
  induction 1 as [|b Hne Hb|b ls Hb Hls IH]; simpl.
  - reflexivity.
  - rewrite app_nil_r. now apply keepends_open.
  - rewrite keepends_closed by assumption. now rewrite IH.
Qed.

Lemma clean_no_CR (b : text) : clean b = true -> no_CR b = true.
Proof.
  induction b as [|c r IH]; simpl; [reflexivity|].
  intros H; apply andb_prop in H; destruct H as [Hc Hr].
  apply andb_prop in Hc; destruct Hc as [_ Hc]. now rewrite Hc, IH.
Qed.

Lemma no_CR_app (a b : text) : no_CR (a ++ b) = no_CR a && no_CR b.
Proof. apply forallb_app. Qed.

Lemma concat_no_CR (ls : list text) : wf_lines ls -> no_CR (List.concat ls) = true.
Proof.
  induction 1 as [|b Hne Hb|b ls Hb Hls IH]; simpl.
  - reflexivity.
  - rewrite app_nil_r. now apply clean_no_CR.
  - rewrite !no_CR_app, IH, (clean_no_CR _ Hb). reflexivity.
Qed.

(** Reading back what was written from well-formed lines gives the lines. *)
Lemma readlines_concat (ls : list text) :
  wf_lines ls -> readlines (List.concat ls) = ls.
Proof.
  intros H. unfold readlines.
  rewrite universal_newlines_id by now apply concat_no_CR.
  now apply keepends_concat.
Qed.

End Lines.

(** ** The marker-delimited block *)

Section ConfigFacts.

Import Config.

Lemma write_until_marker_concat (ls : list text) :
  write_until_marker ls = List.concat (before_marker ls).
Proof.
  induction ls as [|l r IH]; simpl; [reflexivity|].
  destruct (is_marker_line l); simpl; [reflexivity | now rewrite IH].
Qed.

Lemma has_marker_before_marker (ls : list text) :
  has_marker (before_marker ls) = false.
Proof.
  induction ls as [|l r IH]; simpl; [reflexivity|].
  destruct (is_marker_line l) eqn:E; simpl; [reflexivity | now rewrite E].
Qed.

Lemma before_marker_id (ls : list text) :
  has_marker ls = false -> before_marker ls = ls.
Proof.
  induction ls as [|l r IH]; simpl; [reflexivity|].
  intros H; apply orb_false_elim in H; destruct H as [Hl Hr].
  now rewrite Hl, IH.
Qed.

Lemma before_marker_split (ls : list text) :
  has_marker ls = true ->
  exists m post, ls = before_marker ls ++ m :: post /\ is_marker_line m = true.
Proof.
  induction ls as [|l r IH]; simpl; [discriminate|].
  destruct (is_marker_line l) eqn:E; simpl.
  - intros _. now exists l, r.
  - intros H. destruct (IH H) as (m & post & Hsplit & Hm).
    exists m, post. split; [now rewrite <- Hsplit | assumption].
Qed.

Lemma before_marker_wf (ls : list text) :
  wf_lines ls -> wf_lines (before_marker ls).
Proof.
  induction 1 as [|b Hne Hb|b ls Hb Hls IH]; simpl.
  - constructor.
  - destruct (is_marker_line b); now constructor.
  - destruct (is_marker_line (b ++ [LF])); now constructor.
Qed.

Lemma readlines_write_until_marker (ls : list text) :
  wf_lines ls -> readlines (write_until_marker ls) = before_marker ls.
Proof.
  intros H. rewrite write_until_marker_concat.
  now apply readlines_concat, before_marker_wf.
Qed.

Lemma cleanup_leftover_no_marker (file : text) :
  has_marker (readlines (cleanup_leftover file)) = false.
Proof.
  unfold cleanup_leftover.
  destruct (has_marker (readlines file)) eqn:E; [|assumption].
  rewrite readlines_write_until_marker by apply readlines_wf.
  apply has_marker_before_marker.
Qed.

Lemma cleanup_leftover_idempotent (file : text) :
  cleanup_leftover (cleanup_leftover file) = cleanup_leftover file.
Proof.
  unfold cleanup_leftover at 1.
  now rewrite cleanup_leftover_no_marker.
Qed.

Lemma patch_and_restore_no_marker (e : Environ) (file : text) :
  has_marker (readlines (patch_and_restore e file)) = false.
Proof.
  unfold patch_and_restore, add_config.
  destruct (has_keystore (readlines (cleanup_leftover file))); simpl.
  - apply cleanup_leftover_no_marker.
  - rewrite readlines_write_until_marker by apply readlines_wf.
    apply has_marker_before_marker.
Qed.

End ConfigFacts.

(** ** More on lines: appending after a newline *)

Section LinesAppend.

Import Config.

Lemma startswith_snoc (c : ascii) (l : text) :
  forall p, lacks c p = true -> startswith p (l ++ [c]) = startswith p l.
Proof.
  induction l as [|x l IH]; intros [|a p] Hp; simpl in *; try reflexivity.
  - apply andb_prop in Hp. destruct Hp as [Ha _].
    destruct (Ascii.eqb a c); [discriminate | reflexivity].
  - apply andb_prop in Hp. destruct Hp as [_ Hp]. now rewrite IH.
Qed.

Lemma str_in_snoc (c : ascii) (p l : text) :
  p <> [] -> lacks c p = true -> str_in p (l ++ [c]) = str_in p l.
Proof.
  intros Hne Hp. induction l as [|x l IH].
  - destruct p as [|a p]; [congruence|]. simpl in *.
    apply andb_prop in Hp. destruct Hp as [Ha _].
    destruct (Ascii.eqb a c); [discriminate | reflexivity].
  - change (str_in p ((x :: l) ++ [c]))
      with (startswith p ((x :: l) ++ [c]) || str_in p (l ++ [c])).
    rewrite IH, startswith_snoc by assumption. reflexivity.
Qed.

Lemma is_marker_line_snoc_LF (l : text) :
  is_marker_line (l ++ [LF]) = is_marker_line l.
Proof. apply str_in_snoc; [discriminate | reflexivity]. Qed.

Lemma wf_lines_app (a b : list text) :
  Forall closed_line a -> wf_lines b -> wf_lines (a ++ b).
Proof.
  induction 1 as [|l a (body & Hb & ->) Ha IH]; intros Hwf; simpl; [assumption|].
  apply wf_closed; auto.
Qed.

Lemma closed_line_intro (b : text) : clean b = true -> closed_line (b ++ [LF]).
Proof. intros H. exists b. now split. Qed.

(** The lines of a text followed by one more newline: all of them closed,
    and with a marker line exactly if the lines of the text had one. *)
Lemma lines_then_newline (ls : list text) :
  wf_lines ls ->
  exists ls', Forall closed_line ls' /\
              List.concat ls' = List.concat ls ++ [LF] /\
              has_marker ls' = has_marker ls.
Proof.
  induction 1 as [|b Hne Hb|b ls Hb Hls IH].
  - exists [[LF]]. split; [|split]; [|reflexivity|reflexivity].
    constructor; [|constructor]. now apply (closed_line_intro []).
  - exists [b ++ [LF]]. split; [|split].
    + constructor; [|constructor]. now apply closed_line_intro.
    + simpl. now rewrite !app_nil_r.
    + simpl. now rewrite is_marker_line_snoc_LF.
  - destruct IH as (ls' & Hc & Hcat & Hm).
    exists ((b ++ [LF]) :: ls'). split; [|split].
    + constructor; [now apply closed_line_intro | assumption].
    + simpl. rewrite Hcat. now rewrite app_assoc.
    + simpl. now rewrite Hm.
Qed.

Lemma universal_newlines_app (a b : text) :
  no_CR a = true -> universal_newlines (a ++ b) = a ++ universal_newlines b.
Proof.
  induction a as [|c r IH]; simpl; [reflexivity|].
  intros H. apply andb_prop in H. destruct H as [Hc Hr].
  destruct (is_CR c); [discriminate|]. now rewrite IH.
Qed.

Lemma closed_lines_wf (ls : list text) : Forall closed_line ls -> wf_lines ls.
Proof.
  intros H. rewrite <- (app_nil_r ls). apply wf_lines_app; [assumption | constructor].
Qed.

Lemma write_until_marker_app (a : list text) (m : text) (b : list text) :
  has_marker a = false -> is_marker_line m = true ->
  write_until_marker (a ++ m :: b) = List.concat a.
Proof.
  intros Ha Hm. induction a as [|l a IH]; simpl.
  - now rewrite Hm.
  - simpl in Ha. apply orb_false_elim in Ha. destruct Ha as [Hl Ha].
    now rewrite Hl, IH.
Qed.

End LinesAppend.

(** ** The file while the block is appended *)

Section PatchedFile.

Import Config.

Lemma universal_newlines_CR_LF (c d : ascii) (r : text) :
  is_CR c = true -> is_LF d = true ->
  universal_newlines (c :: d :: r) = LF :: universal_newlines r.
Proof. intros Hc Hd. simpl. now rewrite Hc, Hd. Qed.

Lemma universal_newlines_CR_other (c d : ascii) (r : text) :
  is_CR c = true -> is_LF d = false ->
  universal_newlines (c :: d :: r) = LF :: universal_newlines (d :: r).
Proof. intros Hc Hd. simpl. now rewrite Hc, Hd. Qed.

Lemma universal_newlines_other (c : ascii) (r : text) :
  is_CR c = false -> universal_newlines (c :: r) = c :: universal_newlines r.
Proof. intros Hc. simpl. now rewrite Hc. Qed.

Lemma universal_newlines_after_LF_aux (n : nat) :
  forall a b, List.length a <= n ->
    universal_newlines (a ++ LF :: b)
    = universal_newlines (a ++ [LF]) ++ universal_newlines b.
Proof.
  induction n as [|n IH]; intros [|c r] b Hlen; simpl in Hlen;
    try reflexivity; try lia.
  rewrite <- !app_comm_cons.
  destruct (is_CR c) eqn:Ec.
  - destruct r as [|d r'].
    + simpl. rewrite Ec. reflexivity.
    + rewrite <- !app_comm_cons. destruct (is_LF d) eqn:Ed.
      * rewrite !universal_newlines_CR_LF by assumption.
        rewrite (IH r' b) by (simpl in Hlen; lia). reflexivity.
      * rewrite !universal_newlines_CR_other by assumption.
        rewrite !app_comm_cons.
        rewrite (IH (d :: r') b) by (simpl in *; lia). reflexivity.
  - rewrite !universal_newlines_other by assumption.
    rewrite (IH r b) by lia. reflexivity.
Qed.

Lemma universal_newlines_after_LF (a b : text) :
  universal_newlines (a ++ LF :: b)
  = universal_newlines (a ++ [LF]) ++ universal_newlines b.
Proof. now apply (universal_newlines_after_LF_aux (n := List.length a)). Qed.

Lemma universal_newlines_snoc_LF_aux (n : nat) :
  forall a, List.length a <= n ->
    exists u, no_CR u = true /\ universal_newlines (a ++ [LF]) = u ++ [LF].
Proof.
  induction n as [|n IH]; intros [|c r] Hlen; simpl in Hlen; try lia;
    try (exists []; now split).
  rewrite <- !app_comm_cons.
  destruct (is_CR c) eqn:Ec.
  - destruct r as [|d r'].
    + exists []. split; [reflexivity|]. simpl. now rewrite Ec.
    + rewrite <- !app_comm_cons. destruct (is_LF d) eqn:Ed.
      * destruct (IH r') as (u & Hu & Heq); [simpl in Hlen; lia|].
        exists (LF :: u). split; [simpl; now rewrite Hu|].
        rewrite universal_newlines_CR_LF by assumption. now rewrite Heq.
      * destruct (IH (d :: r')) as (u & Hu & Heq); [simpl in *; lia|].
        exists (LF :: u). split; [simpl; now rewrite Hu|].
        rewrite universal_newlines_CR_other by assumption.
        rewrite app_comm_cons. now rewrite Heq.
  - destruct (IH r) as (u & Hu & Heq); [lia|].
    exists (c :: u). split; [simpl; now rewrite Ec, Hu|].
    rewrite universal_newlines_other by assumption. now rewrite Heq.
Qed.

Lemma universal_newlines_snoc_LF (a : text) :
  exists u, no_CR u = true /\ universal_newlines (a ++ [LF]) = u ++ [LF].
Proof. now apply (universal_newlines_snoc_LF_aux (n := List.length a)). Qed.

Lemma universal_newlines_keystore_config (e : Environ) :
  exists tail,
    keystore_config e = LF :: marker_line ++ LF :: keystore_line ++ LF :: tail.
Proof.
  unfold keystore_config, marker_line, keystore_line.
  eexists. simpl. reflexivity.
Qed.

(** The lines of the file once the block is appended: the lines of the old
    content closed by the block's leading newline, then the marker line,
    then the keystore line. *)
Lemma readlines_patched (e : Environ) (file : text) :
  exists u ls rest,
    no_CR u = true /\
    universal_newlines (file ++ [LF]) = u ++ [LF] /\
    Forall closed_line ls /\
    List.concat ls = u ++ [LF] /\
    (has_marker (keepends u) = false -> has_marker ls = false) /\
    readlines (file ++ keystore_config e)
    = ls ++ (marker_line ++ [LF]) :: (keystore_line ++ [LF]) :: rest.
Proof.
  destruct (universal_newlines_keystore_config e) as (tail & Hkc).
  destruct (universal_newlines_snoc_LF file) as (u & Hu & Heq).
  destruct (lines_then_newline (keepends_wf u Hu)) as (ls & Hclosed & Hcat & Hm).
  rewrite concat_keepends in Hcat.
  exists u, ls, (keepends (universal_newlines tail)).
  repeat (split; [assumption|]).
  split; [intros H; now rewrite Hm|].
  unfold readlines. rewrite Hkc, universal_newlines_after_LF, Heq.
  rewrite (universal_newlines_app (marker_line) (LF :: keystore_line ++ LF :: tail))
    by reflexivity.
  rewrite (@universal_newlines_other LF (keystore_line ++ LF :: tail)) by reflexivity.
  rewrite (universal_newlines_app keystore_line (LF :: tail)) by reflexivity.
  rewrite (@universal_newlines_other LF tail) by reflexivity.
  rewrite <- Hcat.
  replace (List.concat ls
           ++ marker_line ++ LF :: keystore_line ++ LF :: universal_newlines tail)
    with (List.concat (ls ++ (marker_line ++ [LF]) :: (keystore_line ++ [LF])
                          :: keepends (universal_newlines tail))).
  - apply keepends_concat. apply wf_lines_app; [assumption|].
    apply wf_closed; [reflexivity|]. apply wf_closed; [reflexivity|].
    apply keepends_wf, universal_newlines_no_CR.
  - rewrite concat_app, !concat_cons, concat_keepends, <- !app_assoc.
    reflexivity.
Qed.

Lemma universal_newlines_snoc_LF_cases_aux (n : nat) :
  forall a, List.length a <= n ->
    universal_newlines (a ++ [LF]) = universal_newlines a ++ [LF] \/
    universal_newlines (a ++ [LF]) = universal_newlines a.
Proof.
  induction n as [|n IH]; intros [|c r] Hlen; simpl in Hlen; try lia;
    try (left; reflexivity).
  rewrite <- !app_comm_cons.
  destruct (is_CR c) eqn:Ec.
  - destruct r as [|d r'].
    + right. simpl. now rewrite Ec.
    + rewrite <- !app_comm_cons. destruct (is_LF d) eqn:Ed.
      * rewrite !universal_newlines_CR_LF by assumption.
        destruct (IH r') as [H|H]; [simpl in Hlen; lia | |]; rewrite H; auto.
      * rewrite !universal_newlines_CR_other by assumption.
        rewrite app_comm_cons.
        destruct (IH (d :: r')) as [H|H]; [simpl in *; lia | |]; rewrite H; auto.
  - rewrite !universal_newlines_other by assumption.
    destruct (IH r) as [H|H]; [lia | |]; rewrite H; auto.
Qed.

Lemma universal_newlines_snoc_LF_cases (a : text) :
  universal_newlines (a ++ [LF]) = universal_newlines a ++ [LF] \/
  universal_newlines (a ++ [LF]) = universal_newlines a.
Proof. now apply (universal_newlines_snoc_LF_cases_aux (n := List.length a)). Qed.

(** The block's leading newline does not create a marker line. *)
Lemma patched_marker_free (file u : text) :
  no_CR u = true ->
  universal_newlines (file ++ [LF]) = u ++ [LF] ->
  has_marker (readlines file) = false ->
  has_marker (keepends u) = false.
Proof.
  intros Hu Heq Hm. unfold readlines in Hm.
  destruct (universal_newlines_snoc_LF_cases file) as [H|H]; rewrite H in Heq.
  - apply app_inj_tail in Heq. destruct Heq as [Heq _]. now rewrite <- Heq.
  - rewrite Heq in Hm.
    destruct (lines_then_newline (keepends_wf u Hu)) as (ls & Hclosed & Hcat & Hmk).
    rewrite concat_keepends in Hcat.
    rewrite <- Hcat, keepends_concat in Hm by now apply closed_lines_wf.
    now rewrite <- Hmk.
Qed.

(** What the [finally] block leaves of a file the block was appended to. *)
Lemma write_until_marker_patched (e : Environ) (file : text) :
  has_marker (readlines file) = false ->
  write_until_marker (readlines (file ++ keystore_config e))
  = universal_newlines (file ++ [LF]).
Proof.
  intros Hm.
  destruct (readlines_patched e file)
    as (u & ls & rest & Hu & Heq & Hclosed & Hcat & Hmark & Hlines).
  rewrite Hlines, write_until_marker_app; [now rewrite Hcat, Heq | | reflexivity].
  apply Hmark. now apply (patched_marker_free file).
Qed.

(** One invocation, on the file: the explicit content. *)
Lemma patch_and_restore_restored (e : Environ) (file : text) :
  restored file (patch_and_restore e file).
Proof.
  unfold restored, patch_and_restore, cleanup_leftover, add_config.
  destruct (has_marker (readlines file)) eqn:Hm.
  - destruct (before_marker_split _ Hm) as (m & post & Hsplit & Hmark).
    pose proof (has_marker_before_marker (readlines file)) as Hpre.
    pose proof (readlines_concat (before_marker_wf (readlines_wf file))) as Hback.
    exists (List.concat (before_marker (readlines file))). split.
    + right. exists (before_marker (readlines file)), m, post. auto.
    + rewrite write_until_marker_concat.
      destruct (has_keystore _); simpl; [reflexivity|].
      apply write_until_marker_patched. now rewrite Hback.
  - exists file. split; [now left|].
    destruct (has_keystore _); simpl; [reflexivity|].
    now apply write_until_marker_patched.
Qed.

End PatchedFile.

(** ** One build invocation on the world *)

Section BuilderFacts.

Import Config Builder.

Ltac run := unfold bind, ret, raise, get, modify, log, try_finally, try_except; simpl.

Lemma fdroid_update_cmd_config (o : Outside) (w : World) :
  config_yml (snd (fdroid_update_cmd o w)) = config_yml w.
Proof.
  unfold fdroid_update_cmd. run.
  destruct (fdroid_update o (repo_dir w) (metadata w)); reflexivity.
Qed.

Lemma build_config (o : Outside) (sign : bool) (w : World) :
  config_yml (snd (build o sign w)) = config_yml w.
Proof.
  unfold build, fdroid_update_cmd, fdroid_signindex_cmd. run.
  destruct (fdroid_update o (repo_dir w) (metadata w)); simpl; [|reflexivity].
  destruct sign; simpl; [|reflexivity].
  destruct (fdroid_signindex o); reflexivity.
Qed.

Lemma copy_config_spec (w : World) :
  fst (copy_config w) = Done tt /\
  config_yml (snd (copy_config w)) = base_config w /\
  trace (snd (copy_config w)) = trace w.
Proof.
  unfold copy_config, base_config. run.
  destruct (config_yml w) eqn:E; simpl; rewrite ?E; auto.
  destruct (app_config_yml w); simpl; rewrite ?E; auto.
Qed.

Lemma entry_cleanup_spec (w : World) (file : text) :
  config_yml w = Some file ->
  fst (entry_cleanup w) = Done tt /\
  config_yml (snd (entry_cleanup w)) = Some (cleanup_leftover file).
Proof.
  intros Hc. unfold entry_cleanup, read_config, cleanup_leftover. run.
  rewrite Hc; simpl.
  destruct (has_marker (readlines file)); simpl; auto.
Qed.

Lemma add_keystore_spec (o : Outside) (w : World) (file : text) :
  config_yml w = Some file ->
  fst (add_keystore o w) = Done (snd (add_config (environ o) file)) /\
  config_yml (snd (add_keystore o w)) = Some (fst (add_config (environ o) file)).
Proof.
  intros Hc. unfold add_keystore, read_config, add_config. run.
  rewrite Hc; simpl.
  destruct (has_keystore (readlines file)); simpl; [auto|].
  now rewrite Hc.
Qed.

Lemma remove_keystore_spec (added : bool) (w : World) (file : text) :
  config_yml w = Some file ->
  fst (remove_keystore added w) = Done tt /\
  config_yml (snd (remove_keystore added w)) = Some (remove_config added file).
Proof.
  intros Hc. unfold remove_keystore, read_config, remove_config. run.
  destruct added; simpl; [|auto]. now rewrite Hc.
Qed.

(** What one invocation leaves in [config.yml], whatever the tool did. *)
Lemma run_fdroid_update_config (o : Outside) (sign : bool) (w : World) :
  config_yml (snd (run_fdroid_update o sign w)) =
  option_map (patch_and_restore (environ o)) (base_config w).
Proof.
  unfold run_fdroid_update.
  destruct (copy_config_spec w) as (Hr & Hc & _).
  unfold bind at 1. destruct (copy_config w) as [r0 w0]; simpl in *; subst r0.
  unfold bind at 1, get at 1.
  rewrite <- Hc. destruct (config_yml w0) as [file|] eqn:E0; simpl; [|now rewrite E0].
  destruct (entry_cleanup_spec w0 E0) as (Hr1 & Hc1).
  unfold bind at 1. destruct (entry_cleanup w0) as [r1 w1]; simpl in *; subst r1.
  destruct (add_keystore_spec o w1 Hc1) as (Hr2 & Hc2).
  unfold bind at 1. destruct (add_keystore o w1) as [r2 w2]; simpl in *; subst r2.
  unfold try_finally.
  pose proof (build_config o sign w2) as Hb.
  destruct (build o sign w2) as [r3 w3]; simpl in *.
  rewrite Hc2 in Hb.
  destruct (remove_keystore_spec (snd (add_config (environ o) (cleanup_leftover file))) w3 Hb)
    as (Hr4 & Hc4).
  destruct (remove_keystore _ w3) as [r4 w4]; simpl in *; subst r4. simpl.
  rewrite Hc4. unfold patch_and_restore.
  now destruct (add_config (environ o) (cleanup_leftover file)).
Qed.

End BuilderFacts.

Section ConfigClaims.

Import Config Builder.

(** C1. The round trip the specification asks for does not hold: on a
    configuration with no [keystore:] line, one complete invocation of
    [run_fdroid_update] (signing or not, with [fdroid update] and
    [fdroid signindex] succeeding or failing) leaves [config.yml] one newline
    longer than it was, because the appended block opens with a newline that
    lies before the marker line and so survives the truncation. *)
Theorem run_fdroid_update_leaves_blank_line :
  forall sign update_ok sign_ok : bool,
    has_keystore (readlines plain_config) = false /\
    config_yml (snd (run_fdroid_update (quiet_outside update_ok sign_ok no_environ)
                       sign (world_with_config plain_config)))
    = Some (plain_config ++ [LF]) /\
    plain_config ++ [LF] <> plain_config.
Proof.
  intros sign update_ok sign_ok.
  split; [reflexivity|]. split.
  - destruct sign, update_ok, sign_ok; vm_compute; reflexivity.
  - intros H. apply (f_equal (@List.length ascii)) in H.
    vm_compute in H. discriminate.
Qed.

(** C2. After any invocation of [run_fdroid_update] on an existing
    configuration, signing or not and whatever the build tool did,
    [config.yml] holds no marker line and nothing of the credential block:
    it is the content that preceded the first marker line, or the whole
    file if it had none, left as it is when it configures a keystore of its
    own and otherwise closed by one newline.  A block that was there when
    the invocation began is removed as well. *)
Theorem no_block_after_run_fdroid_update :
  forall (o : Outside) (sign : bool) (w : World) (file : text),
    base_config w = Some file ->
    exists result,
      config_yml (snd (run_fdroid_update o sign w)) = Some result /\
      has_marker (readlines result) = false /\
      restored file result.
Proof.
  intros o sign w file Hbase.
  exists (patch_and_restore (environ o) file).
  rewrite run_fdroid_update_config, Hbase. simpl.
  split; [reflexivity|]. split.
  - apply patch_and_restore_no_marker.
  - apply patch_and_restore_restored.
Qed.

Lemma no_block_after_run_fdroid_update_witness :
  exists result,
    config_yml (snd (run_fdroid_update (quiet_outside false true no_environ) true
                       (world_with_config crashed_config))) = Some result /\
    has_marker (readlines result) = false /\
    restored crashed_config result.
Proof.
  apply (@no_block_after_run_fdroid_update (quiet_outside false true no_environ)
           true (world_with_config crashed_config) crashed_config).
  reflexivity.
Defined.

(** C3. When some line of [config.yml] contains the marker, the entry step
    rewrites the file to exactly the lines before the first such line, and
    running the entry step again changes nothing. *)
Theorem entry_cleanup_truncates :
  forall (w : World) (file : text),
    config_yml w = Some file ->
    has_marker (readlines file) = true ->
    exists pre m post,
      readlines file = pre ++ m :: post /\
      has_marker pre = false /\
      is_marker_line m = true /\
      fst (entry_cleanup w) = Done tt /\
      config_yml (snd (entry_cleanup w)) = Some (List.concat pre) /\
      readlines (List.concat pre) = pre /\
      entry_cleanup (snd (entry_cleanup w)) = (Done tt, snd (entry_cleanup w)).
Proof.
  intros w file Hc Hm.
  destruct (before_marker_split _ Hm) as (m & post & Hsplit & Hmark).
  exists (before_marker (readlines file)), m, post.
  pose proof (has_marker_before_marker (readlines file)) as Hpre.
  pose proof (readlines_concat (before_marker_wf (readlines_wf file))) as Hback.
  destruct (entry_cleanup_spec w Hc) as (Hr & Hc').
  unfold cleanup_leftover in Hc'. rewrite Hm, write_until_marker_concat in Hc'.
  repeat split; try assumption.
  unfold entry_cleanup at 1, read_config, bind, get, ret, raise.
  rewrite Hc'. simpl. now rewrite Hback, Hpre.
Qed.

Lemma entry_cleanup_truncates_witness :
  exists pre m post,
    readlines crashed_config = pre ++ m :: post /\
    has_marker pre = false /\
    is_marker_line m = true /\
    fst (entry_cleanup (world_with_config crashed_config)) = Done tt /\
    config_yml (snd (entry_cleanup (world_with_config crashed_config)))
      = Some (List.concat pre) /\
    readlines (List.concat pre) = pre /\
    entry_cleanup (snd (entry_cleanup (world_with_config crashed_config)))
      = (Done tt, snd (entry_cleanup (world_with_config crashed_config))).
Proof.
  apply (@entry_cleanup_truncates (world_with_config crashed_config) crashed_config);
    reflexivity.
Defined.

End ConfigClaims.

(** ** Reasoning about monadic code: preserved relations and totality *)

Section Preservation.

Context {S : Type} (R : S -> S -> Prop).
Hypothesis R_refl : forall s, R s s.
Hypothesis R_trans : forall a b c, R a b -> R b c -> R a c.

Lemma preserves_ret {A} (a : A) : preserves R (ret a).
Proof. intros s. apply R_refl. Qed.

Lemma preserves_raise {A} (e : exn) : preserves R (@raise S A e).
Proof. intros s. apply R_refl. Qed.

Lemma preserves_modify (f : S -> S) :
  (forall s, R s (f s)) -> preserves R (modify f).
Proof. intros H s. apply H. Qed.

Lemma preserves_bind {A B} (m : M S A) (k : A -> M S B) :
  preserves R m -> (forall a, preserves R (k a)) -> preserves R (bind m k).
Proof.
  intros Hm Hk s. unfold bind. specialize (Hm s).
  destruct (m s) as [[a|e] s']; simpl in *; [|assumption].
  eapply R_trans; [eassumption | apply Hk].
Qed.

Lemma preserves_get_bind {B} (k : S -> M S B) :
  (forall s, preserves R (k s)) -> preserves R (bind get k).
Proof. intros Hk s. unfold bind, get. apply Hk. Qed.

Lemma preserves_try_except {A} (m : M S A) (h : exn -> M S A) :
  preserves R m -> (forall e, preserves R (h e)) -> preserves R (try_except m h).
Proof.
  intros Hm Hh s. unfold try_except. specialize (Hm s).
  destruct (m s) as [[a|e] s']; simpl in *; [assumption|].
  eapply R_trans; [eassumption | apply Hh].
Qed.

Lemma preserves_try_finally {A} (m : M S A) (fin : M S unit) :
  preserves R m -> preserves R fin -> preserves R (try_finally m fin).
Proof.
  intros Hm Hf s. unfold try_finally. specialize (Hm s).
  destruct (m s) as [r s']. specialize (Hf s').
  destruct (fin s') as [[u|e] s'']; simpl in *; eapply R_trans; eassumption.
Qed.

Lemma preserves_for_each {A} (xs : list A) (body : A -> M S unit) :
  (forall x, preserves R (body x)) -> preserves R (for_each xs body).
Proof.
  intros Hb. induction xs as [|x r IH]; simpl.
  - apply preserves_ret.
  - apply preserves_bind; [apply Hb | intros _; apply IH].
Qed.

End Preservation.

(** Decomposing a goal [preserves R m] along the structure of [m]; [prim]
    closes the goals about single state updates. *)
Ltac preserve_step Rrefl Rtrans prim :=
  lazymatch goal with
  | |- preserves _ (ret _) => apply (@preserves_ret _ _ Rrefl)
  | |- preserves _ (raise _) => apply (@preserves_raise _ _ Rrefl)
  | |- preserves _ (bind get _) => apply preserves_get_bind; intros ?
  | |- preserves _ (bind _ _) => apply (@preserves_bind _ _ Rtrans); [|intros ?]
  | |- preserves _ (try_except _ _) =>
      apply (@preserves_try_except _ _ Rtrans); [|intros ?]
  | |- preserves _ (try_finally _ _) => apply (@preserves_try_finally _ _ Rtrans)
  | |- preserves _ (for_each _ _) =>
      apply (@preserves_for_each _ _ Rrefl Rtrans); intros ?
  | |- preserves _ (modify _) => apply preserves_modify; intros ?; prim
  | |- preserves _ (match ?x with _ => _ end) => destruct x; cbv beta iota
  end.

Section Totality.

Context {S : Type}.

Lemma never_raises_ret {A} (a : A) : never_raises (@ret S A a).
Proof. intros s. now exists a. Qed.

Lemma never_raises_modify (f : S -> S) : never_raises (modify f).
Proof. intros s. now exists tt. Qed.

Lemma never_raises_bind {A B} (m : M S A) (k : A -> M S B) :
  never_raises m -> (forall a, never_raises (k a)) -> never_raises (bind m k).
Proof.
  intros Hm Hk s. unfold bind. destruct (Hm s) as [a Ha].
  destruct (m s) as [[a'|e] s']; simpl in *; [apply Hk | discriminate].
Qed.

Lemma never_raises_get_bind {B} (k : S -> M S B) :
  (forall s, never_raises (k s)) -> never_raises (bind get k).
Proof. intros Hk s. unfold bind, get. apply Hk. Qed.

Lemma never_raises_try_except {A} (m : M S A) (h : exn -> M S A) :
  (forall e, never_raises (h e)) -> never_raises (try_except m h).
Proof.
  intros Hh s. unfold try_except.
  destruct (m s) as [[a|e] s']; simpl; [now exists a | apply Hh].
Qed.

Lemma never_raises_for_each {A} (xs : list A) (body : A -> M S unit) :
  (forall x, never_raises (body x)) -> never_raises (for_each xs body).
Proof.
  intros Hb. induction xs as [|x r IH]; simpl.
  - apply never_raises_ret.
  - apply never_raises_bind; [apply Hb | intros _; apply IH].
Qed.

End Totality.

(** ** The build invocation inside a cycle *)

Section BuilderOutcomes.

Import Config Builder.

Lemma run_fdroid_update_missing_config (o : Outside) (sign : bool) (w : World) :
  base_config w = None ->
  run_fdroid_update o sign w = (Done tt, emit (Log MConfigNotFound) w).
Proof.
  unfold base_config. intros H.
  destruct (config_yml w) eqn:E; [discriminate|].
  unfold run_fdroid_update, copy_config, bind, get, ret, log, modify.
  rewrite E, H. now rewrite E.
Qed.

(** The invocation when [fdroid update] exits with a non-zero status. *)
Lemma run_fdroid_update_tool_fails (o : Outside) (sign : bool) (w : World) (file : text) :
  base_config w = Some file ->
  fdroid_update o (repo_dir w) (metadata w) = None ->
  let w' := snd (run_fdroid_update o sign w) in
  fst (run_fdroid_update o sign w) = Raised CalledProcessError /\
  trace w' = trace w
             ++ (if has_marker (readlines file) then [Log MCleaningLeftover] else [])
             ++ [Log MRunningUpdate; FdroidUpdate] /\
  metadata w' = metadata w /\ temp_metadata w' = temp_metadata w /\
  published w' = published w.
Proof.
  destruct w as [rj ac cy rd mj tm md pb tr]. unfold base_config. simpl.
  intros Hb Hf.
  assert (Hstart : snd (copy_config
            {| repos_json := rj; app_config_yml := ac; config_yml := cy;
               repo_dir := rd; repo_package_map_json := mj; temp_metadata := tm;
               metadata := md; published := pb; trace := tr |})
          = {| repos_json := rj; app_config_yml := ac; config_yml := Some file;
               repo_dir := rd; repo_package_map_json := mj; temp_metadata := tm;
               metadata := md; published := pb; trace := tr |} /\
          fst (copy_config
            {| repos_json := rj; app_config_yml := ac; config_yml := cy;
               repo_dir := rd; repo_package_map_json := mj; temp_metadata := tm;
               metadata := md; published := pb; trace := tr |}) = Done tt).
  { unfold copy_config, bind, get, ret, modify. simpl.
    destruct cy; [inversion Hb; subst; auto|]. subst ac. auto. }
  destruct Hstart as [Hs Hr]. cbv zeta.
  remember (run_fdroid_update o sign _) as res eqn:Hres.
  unfold run_fdroid_update in Hres. unfold bind at 1 in Hres.
  destruct (copy_config _) as [r0 w0]. simpl in Hs, Hr. subst r0 w0.
  unfold entry_cleanup, add_keystore, build, remove_keystore, read_config,
    fdroid_update_cmd, bind, get, ret, raise, modify, log, try_finally in Hres.
  simpl in Hres.
  destruct (has_marker (readlines file)); simpl in Hres;
    match type of Hres with context [has_keystore ?l] => destruct (has_keystore l) end;
    simpl in Hres; rewrite Hf in Hres; simpl in Hres; subst res; simpl;
    rewrite <- ?app_assoc; auto.
Qed.

End BuilderOutcomes.

(** ** Stepping through a sequence *)

Lemma bind_done {S A B} (m : M S A) (k : A -> M S B) (s s' : S) (a : A) :
  m s = (Done a, s') -> bind m k s = k a s'.
Proof. intros H. unfold bind. now rewrite H. Qed.

Lemma bind_raised {S A B} (m : M S A) (k : A -> M S B) (s s' : S) (e : exn) :
  m s = (Raised e, s') -> bind m k s = (Raised e, s').
Proof. intros H. unfold bind. now rewrite H. Qed.

Lemma log_done (m : message) (w : World) : log m w = (Done tt, emit (Log m) w).
Proof. reflexivity. Qed.

Lemma never_raises_unit {S} (m : M S unit) (s : S) :
  never_raises m -> m s = (Done tt, snd (m s)).
Proof.
  intros H. destruct (H s) as [[] Ha].
  destruct (m s) as [r s']; simpl in *. now subst r.
Qed.

(** ** The reconciler: when it returns, when it raises, and the configuration *)

Section ReconcilerFacts.

Import Reconciler.

Lemma apply_bundle_never_raises {V} (id : PackageId V) (m : dict V)
    (entry : text * Bundle) :
  never_raises (@apply_bundle V id m entry).
Proof.
  destruct entry as [key bundle]. unfold apply_bundle, log.
  destruct (find_match m _) as [[repo_slug package_id]|];
    [|apply never_raises_modify].
  destruct (falsy package_id); [apply never_raises_modify|].
  apply never_raises_bind; [apply never_raises_modify | intros _].
  apply never_raises_get_bind; intros w.
  destruct (dict_get (metadata w) _); [|apply never_raises_modify].
  apply never_raises_try_except; intros e.
  apply never_raises_bind; [apply never_raises_modify | intros _].
  apply never_raises_modify.
Qed.

(** With PyYAML and a map file that is absent, unreadable or a dictionary,
    the reconciler returns. *)
Lemma apply_fastlane_metadata_done (o : Outside) (w : World)
    (d : dict Store.py) :
  yaml o = true ->
  Store.load_value (repo_package_map_json w) = Store.PDict d ->
  apply_fastlane_metadata o w
  = (Done tt,
     set_temp_metadata []
       (snd (for_each (temp_metadata w)
               (@apply_bundle _ (py_id (format_dict o)) d) w))).
Proof.
  intros Hy Hd. unfold apply_fastlane_metadata. rewrite Hy. simpl.
  unfold bind at 1, get. cbv beta iota. rewrite Hd.
  erewrite bind_done
    by (apply never_raises_unit, never_raises_for_each;
        intros entry; apply apply_bundle_never_raises).
  reflexivity.
Qed.


Lemma same_config_refl (w : World) : same_config w w.
Proof. now split. Qed.

Lemma same_config_trans (a b c : World) :
  same_config a b -> same_config b c -> same_config a c.
Proof. intros [H1 H2] [H3 H4]. split; congruence. Qed.

Lemma apply_bundle_same_config {V} (id : PackageId V) (m : dict V)
    (entry : text * Bundle) :
  preserves same_config (@apply_bundle V id m entry).
Proof.
  destruct entry as [key bundle]. unfold apply_bundle, log.
  destruct (find_match m _) as [[repo_slug package_id]|];
    [|apply preserves_modify; intros w; now split].
  destruct (falsy package_id); [apply preserves_modify; intros w; now split|].
  apply (preserves_bind same_config_trans);
    [apply preserves_modify; intros w; now split | intros _].
  apply preserves_get_bind; intros w.
  destruct (dict_get (metadata w) _);
    [|apply preserves_modify; intros w'; now split].
  apply (preserves_try_except same_config_trans).
  - destruct (updated_record _ _); [apply (preserves_raise _ same_config_refl)|].
    apply (preserves_bind same_config_trans);
      [apply preserves_modify; intros w'; now split | intros _].
    destruct (joins_path package_id); [|apply (preserves_raise _ same_config_refl)].
    apply (preserves_bind same_config_trans); [|intros _];
      apply preserves_modify; intros w'; now split.
  - intros e. apply (preserves_bind same_config_trans); [|intros _];
      apply preserves_modify; intros w'; now split.
Qed.

Lemma apply_fastlane_metadata_same_config (o : Outside) :
  preserves same_config (apply_fastlane_metadata o).
Proof.
  unfold apply_fastlane_metadata, cleanup, log.
  destruct (yaml o); simpl; [|apply preserves_modify; intros w; now split].
  apply preserves_get_bind; intros w.
  apply (preserves_bind same_config_trans);
    [|intros _; apply preserves_modify; intros w'; now split].
  destruct (Store.load_value _).
  - apply (preserves_for_each same_config_refl same_config_trans).
    intros entry. apply (preserves_raise _ same_config_refl).
  - apply (preserves_for_each same_config_refl same_config_trans).
    intros entry. apply apply_bundle_same_config.
  - apply (preserves_for_each same_config_refl same_config_trans).
    intros entry. apply (preserves_raise _ same_config_refl).
Qed.

End ReconcilerFacts.

(** ** Failure handling in a cycle *)

Section SchedulerClaims.

Import Scheduler.

Lemma time_sleep_returns (sleep_max secs : Z) (w : World) :
  (0 <= secs <= sleep_max)%Z -> time_sleep sleep_max secs w = (Done tt, w).
Proof.
  intros [H0 H1]. unfold time_sleep.
  destruct (Z.ltb_spec secs 0) as [H|_]; [lia|].
  destruct (Z.ltb_spec sleep_max secs) as [H|_]; [lia|]. reflexivity.
Qed.

Lemma time_sleep_negative (sleep_max secs : Z) (w : World) :
  (secs < 0)%Z -> time_sleep sleep_max secs w = (Raised ValueError, w).
Proof.
  intros H. unfold time_sleep.
  destruct (Z.ltb_spec secs 0) as [_|H']; [reflexivity | lia].
Qed.

(** Line 405 after an iteration: the loop goes on when [time.sleep] takes
    the interval, and ends with its exception when the interval is
    negative. *)
Lemma main_loop_next (sleep_max poll_interval : Z) (outside : nat -> Outside)
    (c n : nat) (w w' : World) :
  iteration (outside c) w = (Done tt, w') ->
  (0 <= poll_interval <= sleep_max)%Z ->
  main_loop sleep_max poll_interval outside c (S n) w
  = main_loop sleep_max poll_interval outside (S c) n w'.
Proof.
  intros Hiter Hint. simpl.
  erewrite bind_done by exact Hiter.
  erewrite bind_done by now apply time_sleep_returns.
  reflexivity.
Qed.

Lemma main_loop_ends (sleep_max poll_interval : Z) (outside : nat -> Outside)
    (c n : nat) (w w' : World) :
  iteration (outside c) w = (Done tt, w') ->
  (poll_interval < 0)%Z ->
  main_loop sleep_max poll_interval outside c (S n) w = (Raised ValueError, w').
Proof.
  intros Hiter Hneg. simpl.
  erewrite bind_done by exact Hiter.
  apply bind_raised. now apply time_sleep_negative.
Qed.

(** C4, as stated, fails: with [POLL_INTERVAL=-1] the script computes a
    negative interval, and in a cycle whose skeleton pass fails the crash is
    logged and the configuration restored, but [time.sleep] then raises
    [ValueError] outside the [try] block: the loop ends there and no second
    cycle is started. *)
Lemma negative_interval_ends_the_loop :
  let run := main_loop 1000 (-1) (fun _ => octo_outside false true) 0 2
               (octo_world (Some plain_config)) in
  fst run = Raised ValueError /\
  In (Log (MLoopCrashed CalledProcessError)) (trace (snd run)) /\
  config_yml (snd run) = Some (plain_config ++ [LF]) /\
  List.length (filter (fun ev => match ev with
                                 | Log MStartingCheck => true
                                 | _ => false
                                 end) (trace (snd run))) = 1.
Proof.
  cbv zeta. split; [vm_compute; reflexivity|]. split; [|split].
  - vm_compute. do 17 right. left. reflexivity.
  - vm_compute. reflexivity.
  - vm_compute. reflexivity.
Qed.

(** C4, amended. In a cycle that reaches the skeleton pass with a
    configuration in place and in which [fdroid update] exits with a
    non-zero status, the iteration does not raise before the sleep: what it
    adds to the trace is the failed tool run, the logged crash with its
    traceback, and the call of the sleep, so neither the reconciler nor the
    second pass runs; the records, the staged bundles and the published
    media are as the harvester left them; [config.yml] holds no marker line
    and nothing of the block (it is the former content, closed by a newline
    unless it configures a keystore itself).  The loop goes on with the next
    cycle if the poll interval is one [time.sleep] accepts; with a negative
    interval [time.sleep] raises and the loop ends. *)
Theorem failed_skeleton_pass_aborts_cycle :
  forall (o : Outside) (w : World) (repos : list text) (w1 w2 : World) (file : text),
    Fetcher.fetch_apks o (emit (Log MStartingCheck) w) = (Done (true, repos), w1) ->
    Harvester.fetch_fastlane_metadata o repos (emit (Log MNewApks) w1) = (Done tt, w2) ->
    base_config w2 = Some file ->
    fdroid_update o (repo_dir w2) (metadata w2) = None ->
    fst (iteration o w) = Done tt /\
    trace (snd (iteration o w))
    = trace w2 ++ [CopyResources; Log MPass1]
      ++ (if Config.has_marker (readlines file) then [Log MCleaningLeftover] else [])
      ++ [Log MRunningUpdate; FdroidUpdate;
          Log (MLoopCrashed CalledProcessError); Traceback;
          Log MSleeping; Sleep] /\
    (exists result,
        config_yml (snd (iteration o w)) = Some result /\
        Config.has_marker (readlines result) = false /\
        restored file result) /\
    metadata (snd (iteration o w)) = metadata w2 /\
    temp_metadata (snd (iteration o w)) = temp_metadata w2 /\
    published (snd (iteration o w)) = published w2 /\
    (forall (sleep_max poll_interval : Z) (outside : nat -> Outside) (c n : nat),
        outside c = o ->
        (0 <= poll_interval <= sleep_max)%Z ->
        main_loop sleep_max poll_interval outside c (S n) w
        = main_loop sleep_max poll_interval outside (S c) n (snd (iteration o w))) /\
    (forall (sleep_max poll_interval : Z) (outside : nat -> Outside) (c n : nat),
        outside c = o ->
        (poll_interval < 0)%Z ->
        main_loop sleep_max poll_interval outside c (S n) w
        = (Raised ValueError, snd (iteration o w))).
Proof.
  intros o w repos w1 w2 file Hfetch Hharvest Hbase Hfail.
  set (w2' := emit (Log MPass1) (emit CopyResources w2)).
  assert (Hbase' : base_config w2' = Some file) by exact Hbase.
  assert (Hfail' : fdroid_update o (repo_dir w2') (metadata w2') = None) by exact Hfail.
  destruct (run_fdroid_update_tool_fails o false w2' Hbase' Hfail')
    as (Hr & Htr & Hmd & Htm & Hpb).
  pose proof (run_fdroid_update_config o false w2') as Hcfg.
  rewrite Hbase' in Hcfg. simpl in Hcfg.
  destruct (Builder.run_fdroid_update o false w2') as [r3 w3] eqn:E3.
  simpl in Hr, Htr, Hmd, Htm, Hpb, Hcfg. subst r3.
  assert (Hcheck : update_check o w = (Raised CalledProcessError, w3)).
  { unfold update_check.
    erewrite bind_done by apply log_done.
    erewrite bind_done by exact Hfetch.
    apply bind_raised.
    erewrite bind_done by apply log_done.
    erewrite bind_done by exact Hharvest.
    unfold copy_resources.
    erewrite bind_done by reflexivity.
    erewrite bind_done by reflexivity.
    now apply bind_raised. }
  assert (Hiter : iteration o w
                  = (Done tt, emit Sleep (emit (Log MSleeping)
                       (emit Traceback (emit (Log (MLoopCrashed CalledProcessError)) w3))))).
  { unfold iteration, try_except, bind at 1. now rewrite Hcheck. }
  rewrite Hiter. cbn [fst snd].
  split; [reflexivity|]. split; [|split; [|split; [|split; [|split; [|split]]]]].
  - simpl. rewrite Htr. simpl. rewrite <- !app_assoc. simpl.
    destruct (Config.has_marker (readlines file)); reflexivity.
  - exists (Config.patch_and_restore (environ o) file).
    split; [exact Hcfg|]. split.
    + apply patch_and_restore_no_marker.
    + apply patch_and_restore_restored.
  - exact Hmd.
  - exact Htm.
  - exact Hpb.
  - intros sleep_max poll_interval outside c n Ho Hint.
    apply main_loop_next; [now rewrite Ho | exact Hint].
  - intros sleep_max poll_interval outside c n Ho Hneg.
    apply main_loop_ends; [now rewrite Ho | exact Hneg].
Qed.

Lemma failed_skeleton_pass_aborts_cycle_witness :
  fst (iteration (octo_outside false true) (octo_world (Some plain_config))) = Done tt /\
  trace (snd (iteration (octo_outside false true) (octo_world (Some plain_config))))
  = trace octo_harvested ++ [CopyResources; Log MPass1]
    ++ (if Config.has_marker (readlines plain_config)
        then [Log MCleaningLeftover] else [])
    ++ [Log MRunningUpdate; FdroidUpdate;
        Log (MLoopCrashed CalledProcessError); Traceback; Log MSleeping; Sleep] /\
  (exists result,
      config_yml (snd (iteration (octo_outside false true)
                         (octo_world (Some plain_config)))) = Some result /\
      Config.has_marker (readlines result) = false /\
      restored plain_config result) /\
  metadata (snd (iteration (octo_outside false true) (octo_world (Some plain_config))))
  = metadata octo_harvested /\
  temp_metadata (snd (iteration (octo_outside false true)
                        (octo_world (Some plain_config))))
  = temp_metadata octo_harvested /\
  published (snd (iteration (octo_outside false true) (octo_world (Some plain_config))))
  = published octo_harvested /\
  (forall (sleep_max poll_interval : Z) (outside : nat -> Outside) (c n : nat),
      outside c = octo_outside false true ->
      (0 <= poll_interval <= sleep_max)%Z ->
      main_loop sleep_max poll_interval outside c (S n) (octo_world (Some plain_config))
      = main_loop sleep_max poll_interval outside (S c) n
          (snd (iteration (octo_outside false true) (octo_world (Some plain_config))))) /\
  (forall (sleep_max poll_interval : Z) (outside : nat -> Outside) (c n : nat),
      outside c = octo_outside false true ->
      (poll_interval < 0)%Z ->
      main_loop sleep_max poll_interval outside c (S n) (octo_world (Some plain_config))
      = (Raised ValueError,
         snd (iteration (octo_outside false true) (octo_world (Some plain_config))))).
Proof.
  apply (@failed_skeleton_pass_aborts_cycle (octo_outside false true)
           (octo_world (Some plain_config)) [octo] octo_fetched octo_harvested
           plain_config);
    vm_compute; reflexivity.
Defined.

(** C5, as stated, fails: with no [config.yml] in [/data] and none to copy,
    the skeleton invocation only logs and returns, so the cycle goes on: the
    reconciler runs, the second pass is announced and the check completes
    without any crash being logged. *)
Lemma missing_config_does_not_abort_cycle :
  base_config (octo_world None) = None /\
  trace (snd (iteration (octo_outside true true) (octo_world None)))
  = [Log MStartingCheck; Log (MChecking octo);
     Log (MDownloading (T "app-1.2.apk")); Log (MDownloaded (T "app-1.2.apk"));
     Log (MMapped octo (T "org.example.app"));
     Log MNewApks; Log (MFetchingMetadata octo); Log (MFoundMetadata (T "main"));
     Log (MFetched (T "title.txt")); Log (MFetched (T "short_description.txt"));
     Log (MFetched (T "icon.png"));
     Log (MFetchedScreenshot 1); Log (MFetchedScreenshot 2);
     CopyResources; Log MPass1; Log MConfigNotFound;
     Log (MApplying (T "org.example.app"));
     Log (MWarnNoRecord (T "org.example.app"));
     Log MPass2; Log MConfigNotFound; Log MCheckComplete;
     Log MSleeping; Sleep].
Proof. split; vm_compute; reflexivity. Qed.

(** C5, amended. When the configuration is missing and cannot be copied, an
    invocation of [run_fdroid_update] logs the error and returns normally
    without starting [fdroid]; in a cycle that reaches the skeleton pass in
    that situation the reconciler still runs.  If the reconciler returns,
    the second invocation logs the same error and the check completes; if it
    raises (on a map file that holds a string), the crash is logged instead.
    Either way the iteration reaches the sleep, and the loop goes on with
    the next cycle if the poll interval is one [time.sleep] accepts. *)
Theorem missing_config_skips_only_the_tool :
  forall (o : Outside) (w : World) (repos : list text) (w1 w2 : World),
    Fetcher.fetch_apks o (emit (Log MStartingCheck) w) = (Done (true, repos), w1) ->
    Harvester.fetch_fastlane_metadata o repos (emit (Log MNewApks) w1) = (Done tt, w2) ->
    base_config w2 = None ->
    let w3 := emit (Log MConfigNotFound) (emit (Log MPass1) (emit CopyResources w2)) in
    let w4 := snd (Reconciler.apply_fastlane_metadata o w3) in
    (forall sign w', base_config w' = None ->
       Builder.run_fdroid_update o sign w' = (Done tt, emit (Log MConfigNotFound) w')) /\
    iteration o w
    = (Done tt,
       emit Sleep (emit (Log MSleeping)
         match fst (Reconciler.apply_fastlane_metadata o w3) with
         | Done _ =>
             emit (Log MCheckComplete)
               (emit (Log MConfigNotFound) (emit (Log MPass2) w4))
         | Raised e => emit Traceback (emit (Log (MLoopCrashed e)) w4)
         end)) /\
    (forall (sleep_max poll_interval : Z) (outside : nat -> Outside) (c n : nat),
        outside c = o ->
        (0 <= poll_interval <= sleep_max)%Z ->
        main_loop sleep_max poll_interval outside c (S n) w
        = main_loop sleep_max poll_interval outside (S c) n (snd (iteration o w))).
Proof.
  intros o w repos w1 w2 Hfetch Hharvest Hbase w3 w4.
  assert (Hbase4 : base_config (emit (Log MPass2) w4) = None).
  { destruct (apply_fastlane_metadata_same_config o w3) as [Hc Ha].
    fold w4 in Hc, Ha. unfold base_config in *. simpl in *.
    rewrite Hc, Ha. exact Hbase. }
  assert (Hiter : iteration o w
    = (Done tt,
       emit Sleep (emit (Log MSleeping)
         match fst (Reconciler.apply_fastlane_metadata o w3) with
         | Done _ =>
             emit (Log MCheckComplete)
               (emit (Log MConfigNotFound) (emit (Log MPass2) w4))
         | Raised e => emit Traceback (emit (Log (MLoopCrashed e)) w4)
         end))).
  { unfold iteration, try_except, bind at 1.
    unfold update_check.
    erewrite bind_done by apply log_done.
    erewrite bind_done by exact Hfetch.
    cbv beta iota.
    assert (Hpipe :
      (log MNewApks ;;
       Harvester.fetch_fastlane_metadata o repos ;;
       copy_resources ;;
       log MPass1 ;;
       Builder.run_fdroid_update o false ;;
       Reconciler.apply_fastlane_metadata o ;;
       log MPass2 ;;
       Builder.run_fdroid_update o true) w1
      = match fst (Reconciler.apply_fastlane_metadata o w3) with
        | Done _ => (Done tt, emit (Log MConfigNotFound) (emit (Log MPass2) w4))
        | Raised e => (Raised e, w4)
        end).
    { erewrite bind_done by apply log_done.
      erewrite bind_done by exact Hharvest.
      unfold copy_resources.
      erewrite bind_done by reflexivity.
      erewrite bind_done by reflexivity.
      erewrite bind_done
        by (apply run_fdroid_update_missing_config; exact Hbase).
      fold w3. unfold bind at 1. subst w4.
      destruct (Reconciler.apply_fastlane_metadata o w3) as [[[]|e] w4] eqn:E4;
        cbn [fst snd] in *; [|reflexivity].
      erewrite bind_done by apply log_done.
      now apply run_fdroid_update_missing_config. }
    unfold bind at 1. rewrite Hpipe.
    destruct (fst (Reconciler.apply_fastlane_metadata o w3)) as [[]|e];
      reflexivity. }
  split; [|split].
  - intros sign w' Hw'. now apply run_fdroid_update_missing_config.
  - exact Hiter.
  - intros sleep_max poll_interval outside c n Ho Hint. rewrite Hiter.
    apply main_loop_next; [now rewrite Ho | exact Hint].
Qed.

Lemma missing_config_skips_only_the_tool_witness :
  let o := octo_outside true true in
  let w := octo_world None in
  fst (iteration o w) = Done tt /\
  In (Log (MApplying (T "org.example.app"))) (trace (snd (iteration o w))) /\
  ~ In FdroidUpdate (trace (snd (iteration o w))).
Proof.
  intros o w.
  destruct (@missing_config_skips_only_the_tool o w [octo]
              (snd (Fetcher.fetch_apks o (emit (Log MStartingCheck) w)))
              (snd (Harvester.fetch_fastlane_metadata o [octo]
                      (emit (Log MNewApks)
                         (snd (Fetcher.fetch_apks o (emit (Log MStartingCheck) w)))))))
    as (_ & H & _); try (vm_compute; reflexivity).
  rewrite H. split; [reflexivity|]. split.
  - vm_compute. do 16 right. left. reflexivity.
  - vm_compute. intros Hin.
    repeat (destruct Hin as [Hin|Hin]; [discriminate|]). exact Hin.
Defined.

End SchedulerClaims.

(** ** Dictionaries *)

Lemma text_eqb_refl (a : text) : text_eqb a a = true.
Proof. unfold text_eqb. destruct (list_eq_dec ascii_dec a a); congruence. Qed.

Lemma text_eqb_eq (a b : text) : text_eqb a b = true <-> a = b.
Proof.
  unfold text_eqb. destruct (list_eq_dec ascii_dec a b); split; congruence.
Qed.

Lemma dict_get_set_same {V} (d : dict V) (k : text) (v : V) :
  dict_get (dict_set d k v) k = Some v.
Proof.
  induction d as [|[k' v'] r IH]; simpl.
  - now rewrite text_eqb_refl.
  - destruct (text_eqb k k') eqn:E; simpl; rewrite E; [reflexivity | exact IH].
Qed.

Lemma dict_get_set_other {V} (d : dict V) (k k' : text) (v : V) :
  k' <> k -> dict_get (dict_set d k v) k' = dict_get d k'.
Proof.
  intros Hne. induction d as [|[k0 v0] r IH]; simpl.
  - destruct (text_eqb k' k) eqn:E; [apply text_eqb_eq in E; congruence | reflexivity].
  - destruct (text_eqb k k0) eqn:E; simpl.
    + apply text_eqb_eq in E; subst k0.
      destruct (text_eqb k' k) eqn:E'; [apply text_eqb_eq in E'; congruence | reflexivity].
    + destruct (text_eqb k' k0); [reflexivity | exact IH].
Qed.

(** ** The reconciler on one bundle and on the staging area *)

Section ReconcilerClaims.

Import Reconciler.







End ReconcilerClaims.

(** ** Which repositories the harvester is started on *)

Section HarvestTrace.

Lemma harvested_app (a b : list event) :
  harvested (a ++ b) = harvested a ++ harvested b.
Proof. apply flat_map_app. Qed.

Lemma same_harvest_refl (w : World) : same_harvest w w.
Proof. reflexivity. Qed.

Lemma same_harvest_trans (a b c : World) :
  same_harvest a b -> same_harvest b c -> same_harvest a c.
Proof. unfold same_harvest. congruence. Qed.

Lemma emit_same_harvest (ev : event) (w : World) :
  harvest_of ev = [] -> same_harvest w (emit ev w).
Proof.
  intros H. unfold same_harvest. simpl.
  rewrite harvested_app. simpl. rewrite H. now rewrite !app_nil_r.
Qed.

Lemma frame_refl (f : Fetcher.Frame) : on_world same_harvest f f.
Proof. reflexivity. Qed.

Lemma frame_trans (a b c : Fetcher.Frame) :
  on_world same_harvest a b -> on_world same_harvest b c ->
  on_world same_harvest a c.
Proof. apply same_harvest_trans. Qed.

Lemma preserves_in_world {A} (R : World -> World -> Prop) (m : M World A) :
  preserves R m -> preserves (on_world R) (Fetcher.in_world m).
Proof.
  intros H f. unfold Fetcher.in_world, on_world. specialize (H (Fetcher.world f)).
  destruct (m (Fetcher.world f)) as [r w']. exact H.
Qed.

Ltac quiet :=
  repeat preserve_step same_harvest_refl same_harvest_trans
    ltac:(first [ apply emit_same_harvest; reflexivity | reflexivity ]).

Lemma log_same_harvest (m : message) :
  harvest_of (Log m) = [] -> preserves same_harvest (log m).
Proof. intros H w. now apply emit_same_harvest. Qed.

Lemma in_world_log_same_harvest (m : message) :
  harvest_of (Log m) = [] ->
  preserves (on_world same_harvest) (Fetcher.in_world (log m)).
Proof. intros H. now apply preserves_in_world, log_same_harvest. Qed.

Lemma extract_package_same_harvest (repo filename : text) :
  preserves (on_world same_harvest) (Fetcher.extract_package repo filename).
Proof.
  unfold Fetcher.extract_package.
  apply preserves_get_bind; intros f.
  destruct (Store.py_contains _ _) as [[|]|];
    [apply (@preserves_ret _ _ frame_refl) |
    |apply (@preserves_raise _ _ frame_refl)].
  destruct (dict_get _ _) as [[package|]|].
  - destruct (Store.py_setitem _ _ _);
      [|now apply in_world_log_same_harvest].
    apply (@preserves_bind _ _ frame_trans).
    + apply preserves_modify; intros f'. reflexivity.
    + intros _. now apply in_world_log_same_harvest.
  - now apply in_world_log_same_harvest.
  - apply (@preserves_ret _ _ frame_refl).
Qed.

Lemma fetch_asset_same_harvest (repo : text) (asset : Asset) :
  preserves (on_world same_harvest) (Fetcher.fetch_asset repo asset).
Proof.
  unfold Fetcher.fetch_asset.
  destruct (negb _); [apply (@preserves_ret _ _ frame_refl)|].
  apply (@preserves_bind _ _ frame_trans);
    [|intros _; apply extract_package_same_harvest].
  apply preserves_get_bind; intros f.
  destruct (dict_get _ _).
  - now apply in_world_log_same_harvest.
  - apply (@preserves_bind _ _ frame_trans);
      [now apply in_world_log_same_harvest | intros _].
    destruct (payload asset) as [e|e remains|file];
      [apply (@preserves_raise _ _ frame_refl)| |].
    { apply (@preserves_bind _ _ frame_trans);
        [|intros _; apply (@preserves_raise _ _ frame_refl)].
      apply preserves_in_world, preserves_modify. intros w. reflexivity. }
    apply (@preserves_bind _ _ frame_trans); [|intros _].
    { apply preserves_in_world, preserves_modify. intros w. reflexivity. }
    apply (@preserves_bind _ _ frame_trans);
      [now apply in_world_log_same_harvest | intros _].
    apply preserves_modify; intros f'. reflexivity.
Qed.

Lemma check_repo_same_harvest (o : Outside) (repo : text) :
  preserves (on_world same_harvest) (Fetcher.check_repo o repo).
Proof.
  unfold Fetcher.check_repo.
  apply (@preserves_bind _ _ frame_trans);
    [now apply in_world_log_same_harvest | intros _].
  apply (@preserves_try_except _ _ frame_trans).
  - destruct (latest_release o repo) as [e|assets].
    + apply (@preserves_raise _ _ frame_refl).
    + apply (@preserves_for_each _ _ frame_refl frame_trans).
      intros asset. apply fetch_asset_same_harvest.
  - intros e.
    destruct e; try (now apply in_world_log_same_harvest);
      (apply (@preserves_bind _ _ frame_trans);
       [now apply in_world_log_same_harvest | intros _];
       apply preserves_in_world, preserves_modify; intros w;
       now apply emit_same_harvest).
Qed.

Lemma fetch_apks_same_harvest (o : Outside) :
  preserves same_harvest (Fetcher.fetch_apks o).
Proof.
  intros w. unfold Fetcher.fetch_apks.
  destruct (repos_json w) as [[|repos]|].
  - reflexivity.
  - pose proof (@preserves_for_each _ _ frame_refl frame_trans _ repos
                  (Fetcher.check_repo o) (check_repo_same_harvest o)
                  {| Fetcher.world := w; Fetcher.downloaded := false;
                     Fetcher.repo_package_map :=
                       Store.load_value (repo_package_map_json w) |}) as H.
    destruct (for_each repos (Fetcher.check_repo o) _) as [[u|e] f]; exact H.
  - now apply emit_same_harvest.
Qed.

Lemma run_fdroid_update_same_harvest (o : Outside) (sign : bool) :
  preserves same_harvest (Builder.run_fdroid_update o sign).
Proof.
  unfold Builder.run_fdroid_update, Builder.copy_config, Builder.entry_cleanup,
    Builder.add_keystore, Builder.remove_keystore, Builder.build,
    Builder.read_config, Builder.fdroid_update_cmd, Builder.fdroid_signindex_cmd,
    log.
  quiet.
Qed.

Lemma apply_fastlane_metadata_same_harvest (o : Outside) :
  preserves same_harvest (Reconciler.apply_fastlane_metadata o).
Proof.
  unfold Reconciler.apply_fastlane_metadata, Reconciler.cleanup,
    Reconciler.apply_bundle, log.
  quiet.
Qed.

Lemma try_branches_same_harvest (o : Outside) (repo owner repo_name : text)
    (branches : list text) :
  preserves same_harvest (Harvester.try_branches o repo owner repo_name branches).
Proof.
  induction branches as [|branch rest IH]; simpl; unfold log; [quiet|].
  destruct (title (fastlane o repo branch)) as [body|e]; [quiet|].
  destruct e; quiet; exact IH.
Qed.

Lemma try_branches_never_raises (o : Outside) (repo owner repo_name : text)
    (branches : list text) :
  never_raises (Harvester.try_branches o repo owner repo_name branches).
Proof.
  induction branches as [|branch rest IH]; simpl; unfold log;
    [apply never_raises_modify|].
  destruct (title (fastlane o repo branch)) as [body|e].
  - repeat (apply never_raises_bind; [|intros _]);
      try apply never_raises_modify;
      apply never_raises_for_each; intros x; apply never_raises_modify.
  - destruct e;
      (apply never_raises_bind; [|intros _; exact IH]);
      try apply never_raises_modify.
    destruct (Nat.eqb code 404); [apply never_raises_ret | apply never_raises_modify].
Qed.

(** The harvester logs each slug it is given, in order, and never raises on
    well-formed slugs. *)
Lemma fetch_fastlane_metadata_harvest (o : Outside) (repos : list text) (w : World) :
  forallb is_slug repos = true ->
  fst (Harvester.fetch_fastlane_metadata o repos w) = Done tt /\
  harvested (trace (snd (Harvester.fetch_fastlane_metadata o repos w)))
  = harvested (trace w) ++ repos.
Proof.
  revert w. induction repos as [|repo rest IH]; intros w Hs; simpl.
  - now rewrite app_nil_r.
  - simpl in Hs. apply andb_prop in Hs. destruct Hs as [Hrepo Hrest].
    unfold Harvester.fetch_fastlane_metadata in *. simpl.
    assert (Hone : Harvester.harvest o repo w
                   = (Done tt, snd (Harvester.harvest o repo w)) /\
                   harvested (trace (snd (Harvester.harvest o repo w)))
                   = harvested (trace w) ++ [repo]).
    { unfold Harvester.harvest. unfold is_slug in Hrepo.
      erewrite bind_done by apply log_done.
      destruct (split "/" repo) as [|owner [|repo_name [|x l]]]; try discriminate.
      split.
      - apply never_raises_unit, try_branches_never_raises.
      - rewrite (try_branches_same_harvest o repo owner repo_name _
                   (emit (Log (MFetchingMetadata repo)) w)).
        simpl. now rewrite harvested_app. }
    destruct Hone as [Hrun Htr].
    erewrite bind_done by exact Hrun.
    destruct (IH (snd (Harvester.harvest o repo w)) Hrest) as [Hd Hh].
    split; [exact Hd|]. rewrite Hh, Htr. now rewrite <- app_assoc.
Qed.

Lemma check_repo_never_raises (o : Outside) (repo : text) :
  never_raises (Fetcher.check_repo o repo).
Proof.
  unfold Fetcher.check_repo.
  apply never_raises_bind; [intros f; now exists tt | intros _].
  apply never_raises_try_except. intros e f.
  destruct e; simpl; now exists tt.
Qed.

(** With a readable [repos.json], [fetch_apks] returns, and the list it
    returns is the whole configured list. *)
Lemma fetch_apks_returns_all_repos (o : Outside) (w : World) (repos : list text) :
  repos_json w = Some (Repos repos) ->
  exists d w1, Fetcher.fetch_apks o w = (Done (d, repos), w1).
Proof.
  intros H. unfold Fetcher.fetch_apks. rewrite H.
  destruct (@never_raises_for_each _ _ repos (Fetcher.check_repo o)
              (check_repo_never_raises o)
              {| Fetcher.world := w; Fetcher.downloaded := false;
                 Fetcher.repo_package_map :=
                   Store.load_value (repo_package_map_json w) |}) as [[] Hd].
  destruct (for_each repos (Fetcher.check_repo o) _) as [[[]|e] f];
    [|discriminate]. eauto.
Qed.

Lemma two_pass_same_harvest (o : Outside) :
  preserves same_harvest
    (Scheduler.copy_resources ;;
     log MPass1 ;;
     Builder.run_fdroid_update o false ;;
     Reconciler.apply_fastlane_metadata o ;;
     log MPass2 ;;
     Builder.run_fdroid_update o true).
Proof.
  unfold Scheduler.copy_resources, log.
  quiet; first [ apply run_fdroid_update_same_harvest
               | apply apply_fastlane_metadata_same_harvest ].
Qed.

(** C8, as stated, fails: with two configured repositories of which only
    [octo/app] has a new artifact (the artifact of [idle/app] is already in
    the repository directory and is skipped), the harvester is still started
    on both. *)
Lemma harvester_also_visits_idle_repo :
  trace (snd (Fetcher.fetch_apks two_repo_outside two_repo_world))
  = [Log (MChecking octo);
     Log (MDownloading (T "app-1.2.apk")); Log (MDownloaded (T "app-1.2.apk"));
     Log (MMapped octo (T "org.example.app"));
     Log (MChecking idle); Log (MAlreadyExists (T "idle-3.0.apk"))] /\
  harvested (trace (snd (Scheduler.update_check two_repo_outside two_repo_world)))
  = [octo; idle].
Proof. split; vm_compute; reflexivity. Qed.

(** C8, amended. [fetch_apks] hands back the whole list read from
    [repos.json] together with one flag for the cycle, so in a cycle in
    which at least one artifact was downloaded the harvester is started on
    every configured repository, in order, whether or not that repository
    had anything new; in a cycle without a download it is not started at
    all. *)
Theorem harvester_visits_every_configured_repo :
  forall (o : Outside) (w : World) (repos : list text),
    repos_json w = Some (Repos repos) ->
    forallb is_slug repos = true ->
    exists (d : bool) (w1 : World),
      Fetcher.fetch_apks o (emit (Log MStartingCheck) w) = (Done (d, repos), w1) /\
      harvested (trace (snd (Scheduler.update_check o w)))
      = harvested (trace w) ++ (if d then repos else []).
Proof.
  intros o w repos Hrepos Hslugs.
  destruct (@fetch_apks_returns_all_repos o (emit (Log MStartingCheck) w) repos Hrepos)
    as (d & w1 & Hfetch).
  exists d, w1. split; [exact Hfetch|].
  assert (H01 : harvested (trace w1) = harvested (trace w)).
  { pose proof (fetch_apks_same_harvest o (emit (Log MStartingCheck) w)) as H.
    rewrite Hfetch in H. unfold same_harvest in H. simpl in H.
    rewrite H, harvested_app. simpl. now rewrite app_nil_r. }
  unfold Scheduler.update_check.
  erewrite bind_done by apply log_done.
  erewrite bind_done by exact Hfetch.
  cbv beta iota.
  destruct d.
  - destruct (fetch_fastlane_metadata_harvest o repos (emit (Log MNewApks) w1) Hslugs)
      as [Hd Hh].
    destruct (Harvester.fetch_fastlane_metadata o repos (emit (Log MNewApks) w1))
      as [r2 w2] eqn:E2.
    simpl in Hd, Hh. subst r2.
    assert (H2 : harvested (trace w2) = harvested (trace w) ++ repos).
    { rewrite Hh. simpl. rewrite harvested_app. simpl.
      now rewrite app_nil_r, H01. }
    pose proof (two_pass_same_harvest o w2) as H3. unfold same_harvest in H3.
    unfold bind at 1.
    erewrite bind_done by apply log_done.
    erewrite bind_done by exact E2.
    destruct ((Scheduler.copy_resources ;; _) w2) as [[u|e] w3]; simpl in *.
    + rewrite harvested_app. simpl. now rewrite app_nil_r, H3.
    + now rewrite H3.
  - erewrite bind_done by apply log_done.
    simpl. rewrite !harvested_app. simpl. now rewrite !app_nil_r.
Qed.

Lemma harvester_visits_every_configured_repo_witness :
  exists (d : bool) (w1 : World),
    Fetcher.fetch_apks two_repo_outside (emit (Log MStartingCheck) two_repo_world)
    = (Done (d, [octo; idle]), w1) /\
    harvested (trace (snd (Scheduler.update_check two_repo_outside two_repo_world)))
    = harvested (trace two_repo_world) ++ (if d then [octo; idle] else []).
Proof.
  apply (@harvester_visits_every_configured_repo two_repo_outside two_repo_world
           [octo; idle]); reflexivity.
Defined.

End HarvestTrace.

(** ** The identity map on disk *)

Section StoreFacts.

Import Store.

Lemma dict_get_none_not_key {V} (d : dict V) (k : text) :
  dict_get d k = None -> ~ In k (keys d).
Proof.
  induction d as [|[k' v] r IH]; simpl; [tauto|].
  destruct (text_eqb k k') eqn:E; [discriminate|].
  intros H [Hk|Hk]; [|now apply IH].
  subst k'. now rewrite text_eqb_refl in E.
Qed.

Lemma keys_dict_set_known {V} (d : dict V) (k : text) (v : V) :
  In k (keys d) -> keys (dict_set d k v) = keys d.
Proof.
  induction d as [|[k' v'] r IH]; simpl; [tauto|].
  destruct (text_eqb k k') eqn:E; simpl; [reflexivity|].
  intros [Hk|Hk]; [subst k'; now rewrite text_eqb_refl in E|].
  now rewrite IH.
Qed.

Lemma keys_dict_set_new {V} (d : dict V) (k : text) (v : V) :
  ~ In k (keys d) -> keys (dict_set d k v) = keys d ++ [k].
Proof.
  induction d as [|[k' v'] r IH]; simpl; [reflexivity|].
  intros Hn. destruct (text_eqb k k') eqn:E.
  - apply text_eqb_eq in E. subst k'. tauto.
  - simpl. rewrite IH; [reflexivity | tauto].
Qed.

Lemma unique_keys_dict_set {V} (d : dict V) (k : text) (v : V) :
  unique_keys d -> unique_keys (dict_set d k v).
Proof.
  unfold unique_keys. intros Hd.
  destruct (in_dec (list_eq_dec ascii_dec) k (keys d)) as [Hin|Hout].
  - now rewrite keys_dict_set_known.
  - rewrite keys_dict_set_new by assumption.
    apply NoDup_app; [assumption | repeat constructor; auto | ].
    intros x Hx [Hk|[]]. subst x. tauto.
Qed.

Lemma load_members_unique (doc : document) :
  forall acc d, unique_keys acc -> load_members acc doc = Some d -> unique_keys d.
Proof.
  induction doc as [doc IH] using (induction_ltof1 _ (@List.length token)).
  intros acc d Hacc H.
  destruct doc as [|t1 rest]; [discriminate|].
  destruct t1; try discriminate.
  - destruct rest as [|[] [|[] [|[] rest']]]; try discriminate.
    simpl in H. eapply (IH rest'); [|apply unique_keys_dict_set; eassumption|exact H].
    unfold ltof. simpl. lia.
  - destruct rest; [|discriminate]. simpl in H. now inversion H; subst.
Qed.

Lemma json_load_unique (doc : document) (d : dict text) :
  json_load doc = Some d -> unique_keys d.
Proof.
  destruct doc as [|[] rest]; try discriminate.
  destruct rest as [|t rest]; [discriminate|].
  destruct t; try discriminate.
  - destruct rest as [|[] [|[] rest']]; try discriminate.
    simpl. apply load_members_unique.
    unfold unique_keys. simpl. repeat constructor. auto.
  - destruct rest; [|discriminate]. simpl. intros H. inversion H. constructor.
Qed.

Lemma load_map_unique (file : option document) : unique_keys (load_map file).
Proof.
  unfold load_map. destruct file as [doc|]; [|constructor].
  destruct (json_load doc) eqn:E; [now apply json_load_unique in E | constructor].
Qed.

End StoreFacts.

Section StoreRoundTrip.

Import Store.

Lemma dict_set_new {V} (d : dict V) (k : text) (v : V) :
  ~ In k (keys d) -> dict_set d k v = d ++ [(k, v)].
Proof.
  induction d as [|[k' v'] r IH]; simpl; [reflexivity|].
  intros Hn. destruct (text_eqb k k') eqn:E.
  - apply text_eqb_eq in E. subst k'. tauto.
  - rewrite IH; [reflexivity | tauto].
Qed.

Lemma load_members_dump (r : dict text) :
  forall acc, unique_keys (acc ++ r) ->
              load_members acc (dump_items false r ++ [TClose]) = Some (acc ++ r).
Proof.
  induction r as [|[k v] r IH]; intros acc Hu; simpl.
  - now rewrite app_nil_r.
  - assert (Hk : ~ In k (keys acc)).
    { unfold unique_keys, keys in Hu. rewrite map_app in Hu.
      intros Hin. apply NoDup_remove_2 in Hu. apply Hu.
      apply in_or_app. now left. }
    rewrite (@dict_set_new _ acc k v Hk).
    rewrite IH; rewrite <- app_assoc; [reflexivity | exact Hu].
Qed.

(** What [json.dump] writes, [json.load] reads back unchanged. *)
Lemma json_load_dump (d : dict text) :
  unique_keys d -> json_load (json_dump d) = Some d.
Proof.
  intros Hu. destruct d as [|[k v] r]; [reflexivity|].
  unfold json_dump. simpl. now apply (load_members_dump r [(k, v)]).
Qed.

Lemma load_map_save_map (d : dict text) :
  unique_keys d -> load_map (save_map d) = d.
Proof. intros Hu. unfold load_map, save_map. now rewrite json_load_dump. Qed.

(** A dictionary of strings among the values. *)
Lemma dict_get_lift (m : dict text) (k : text) :
  dict_get (lift m) k = option_map PStr (dict_get m k).
Proof.
  induction m as [|[k' v] r IH]; simpl; [reflexivity|].
  destruct (text_eqb k k'); [reflexivity | exact IH].
Qed.

Lemma lift_dict_set (m : dict text) (k v : text) :
  lift (dict_set m k v) = dict_set (lift m) k (PStr v).
Proof.
  induction m as [|[k' v'] r IH]; simpl; [reflexivity|].
  destruct (text_eqb k k'); simpl; [reflexivity | now rewrite IH].
Qed.

Lemma dump_members_lift (m : dict text) :
  forall first, dump_members first (lift m) = dump_items first m.
Proof.
  induction m as [|[k v] r IH]; intros first; [reflexivity|].
  change (dump_members first (lift ((k, v) :: r)))
    with ((if first then [] else [TComma])
          ++ [TString k; TColon] ++ [TString v] ++ dump_members false (lift r)).
  now rewrite IH.
Qed.

Lemma dump_value_lift (m : dict text) : dump_value (PDict (lift m)) = json_dump m.
Proof.
  change (dump_value (PDict (lift m)))
    with ([TOpen] ++ dump_members true (lift m) ++ [TClose]).
  now rewrite dump_members_lift.
Qed.

Lemma parse_members_string (n : nat) (acc : dict py) (k v : text)
    (rest : document) :
  parse_members (S (S n)) acc (TComma :: TString k :: TColon :: TString v :: rest)
  = parse_members (S n) (dict_set acc k (PStr v)) rest.
Proof. reflexivity. Qed.

Lemma parse_value_string (n : nat) (k v : text) (rest : document) :
  parse_value (S (S n)) (TOpen :: TString k :: TColon :: TString v :: rest)
  = parse_members (S n) [(k, PStr v)] rest.
Proof. reflexivity. Qed.

Lemma parse_members_flat (doc : document) :
  forall acc m fuel,
    load_members acc doc = Some m ->
    List.length doc < fuel ->
    parse_members fuel (lift acc) doc = Some (PDict (lift m), []).
Proof.
  induction doc as [doc IH] using (induction_ltof1 _ (@List.length token)).
  intros acc m fuel H Hfuel.
  destruct fuel as [|n]; [lia|].
  destruct doc as [|t1 rest]; [discriminate|].
  destruct t1; try discriminate.
  - destruct rest as [|[] [|[] [|[] rest']]]; try discriminate.
    simpl in H, Hfuel.
    destruct n as [|n']; [lia|].
    rewrite parse_members_string, <- lift_dict_set.
    apply (IH rest'); [unfold ltof; simpl; lia | exact H | lia].
  - destruct rest; [|discriminate]. simpl in H. inversion H; subst. reflexivity.
Qed.

(** On the documents the flat loader accepts, [json.load] returns the same
    dictionary. *)
Lemma json_load_value_flat (doc : document) (m : dict text) :
  json_load doc = Some m -> json_load_value doc = Some (PDict (lift m)).
Proof.
  intros H. unfold json_load_value.
  destruct doc as [|[] rest]; try discriminate.
  destruct rest as [|t rest]; [discriminate|].
  destruct t; try discriminate.
  - destruct rest as [|[] [|[] rest']]; try discriminate.
    simpl in H.
    cbn [List.length].
    rewrite parse_value_string.
    rewrite (@parse_members_flat rest' [(s, s0)] m _ H); [reflexivity|].
    simpl. lia.
  - destruct rest; [|discriminate]. simpl in H. inversion H; subst. reflexivity.
Qed.

Lemma load_value_flat (doc : document) (m : dict text) :
  json_load doc = Some m -> load_value (Some doc) = PDict (lift m).
Proof. intros H. unfold load_value. now rewrite (json_load_value_flat _ H). Qed.

(** The general round trip: any value is read back as written. *)
Lemma wf_py_dict (d : dict py) :
  wf_py (PDict d) <-> unique_keys d /\ Forall (fun kv => wf_py (snd kv)) d.
Proof.
  change (wf_py (PDict d))
    with (NoDup (map fst d) /\
          (fix all (d : list (text * py)) : Prop :=
             match d with
             | [] => True
             | (_, x) :: r => wf_py x /\ all r
             end) d).
  unfold unique_keys, keys.
  assert (H : (fix all (d : list (text * py)) : Prop :=
                 match d with
                 | [] => True
                 | (_, x) :: r => wf_py x /\ all r
                 end) d <-> Forall (fun kv => wf_py (snd kv)) d).
  { induction d as [|[k x] r IH]; [split; constructor|].
    split.
    - intros [Hx Hr]. constructor; [exact Hx | now apply IH].
    - intros Hall. inversion Hall; subst. split; [assumption | now apply IH]. }
  tauto.
Qed.

Lemma dump_value_dict (d : dict py) :
  dump_value (PDict d) = [TOpen] ++ dump_members true d ++ [TClose].
Proof. reflexivity. Qed.

Lemma dump_members_cons (first : bool) (k : text) (x : py) (r : dict py) :
  dump_members first ((k, x) :: r)
  = (if first then [] else [TComma])
    ++ [TString k; TColon] ++ dump_value x ++ dump_members false r.
Proof. reflexivity. Qed.

Lemma parse_value_open (n : nat) (k : text) (rest : document) :
  parse_value (S n) (TOpen :: TString k :: TColon :: rest)
  = match parse_value n rest with
    | Some (x, rest') => parse_members n [(k, x)] rest'
    | None => None
    end.
Proof. reflexivity. Qed.

Lemma parse_members_comma (n : nat) (acc : dict py) (k : text) (rest : document) :
  parse_members (S n) acc (TComma :: TString k :: TColon :: rest)
  = match parse_value n rest with
    | Some (x, rest') => parse_members n (dict_set acc k x) rest'
    | None => None
    end.
Proof. reflexivity. Qed.

Lemma parse_dump (n : nat) :
  (forall v rest,
      wf_py v -> List.length (dump_value v) < n ->
      parse_value n (dump_value v ++ rest) = Some (v, rest)) /\
  (forall acc r rest,
      unique_keys (acc ++ r) -> Forall (fun kv => wf_py (snd kv)) r ->
      List.length (dump_members false r) < n ->
      parse_members n acc (dump_members false r ++ TClose :: rest)
      = Some (PDict (acc ++ r), rest)).
Proof.
  induction n as [|n [IHv IHm]]; [split; intros; lia|].
  split.
  - intros v rest Hwf Hlen. destruct v as [s|d|j]; [reflexivity| |reflexivity].
    apply wf_py_dict in Hwf. destruct Hwf as [Hu Hall].
    destruct d as [|[k x] r]; [reflexivity|].
    rewrite dump_value_dict, dump_members_cons in *.
    inversion Hall as [|? ? Hx Hr]; subst. cbn [snd] in Hx.
    cbn [app] in *. rewrite <- !app_assoc. cbn [app].
    rewrite parse_value_open.
    cbn [List.length] in Hlen. rewrite !length_app in Hlen.
    cbn [List.length] in Hlen.
    rewrite IHv by (assumption || lia).
    apply (IHm [(k, x)] r rest); [exact Hu | exact Hr | lia].
  - intros acc r rest Hu Hall Hlen.
    destruct r as [|[k x] r]; [now rewrite app_nil_r|].
    rewrite dump_members_cons in *.
    inversion Hall as [|? ? Hx Hr]; subst. cbn [snd] in Hx.
    cbn [app] in *. rewrite <- !app_assoc.
    rewrite parse_members_comma.
    cbn [List.length] in Hlen. rewrite !length_app in Hlen.
    rewrite IHv by (assumption || lia).
    assert (Hk : ~ In k (keys acc)).
    { unfold unique_keys, keys in Hu. rewrite map_app in Hu.
      intros Hin. apply NoDup_remove_2 in Hu. apply Hu.
      apply in_or_app. now left. }
    rewrite (@dict_set_new _ acc k x Hk).
    rewrite (IHm (acc ++ [(k, x)]) r rest);
      [now rewrite <- app_assoc | now rewrite <- app_assoc | exact Hr | lia].
Qed.

End StoreRoundTrip.

(** ** Identity stability *)

Section IdentityClaims.

Import Store Fetcher.

Lemma map_grows_same (f f' : Frame) :
  repo_package_map f' = repo_package_map f -> map_grows f f'.
Proof.
  intros H m Hm Hu. exists m. rewrite H.
  split; [exact Hm|]. split; [intros s P Hs; exact Hs | exact Hu].
Qed.

Lemma map_grows_refl (f : Frame) : map_grows f f.
Proof. now apply map_grows_same. Qed.

Lemma map_grows_trans (a b c : Frame) :
  map_grows a b -> map_grows b c -> map_grows a c.
Proof.
  intros H1 H2 m Hm Hu.
  destruct (H1 m Hm Hu) as (m1 & Hm1 & Hk1 & Hu1).
  destruct (H2 m1 Hm1 Hu1) as (m2 & Hm2 & Hk2 & Hu2).
  exists m2. split; [exact Hm2|]. split; [|exact Hu2].
  intros s P H. apply Hk2, Hk1, H.
Qed.

Lemma in_world_map_grows {A} (m : M World A) : preserves map_grows (in_world m).
Proof.
  intros f. unfold in_world. destruct (m (world f)) as [r w']. simpl.
  now apply map_grows_same.
Qed.

(** Lines 89-97: an entry is written only for a repository without one. *)
Lemma extract_package_map_grows (repo filename : text) :
  preserves map_grows (extract_package repo filename).
Proof.
  intros f m Hm Hu.
  unfold extract_package, bind, get, modify, in_world, log, ret.
  cbv beta iota. rewrite Hm.
  unfold py_contains, dict_mem. rewrite dict_get_lift.
  destruct (dict_get m repo) eqn:Eknown; cbn [option_map]; simpl;
    [exists m; split; [exact Hm|]; split; [intros s P Hs; exact Hs | exact Hu]|].
  destruct (dict_get (repo_dir (world f)) filename) as [[package|]|]; simpl;
    try (exists m; split; [exact Hm|]; split; [intros s P Hs; exact Hs | exact Hu]).
  exists (dict_set m repo package). split; [now rewrite lift_dict_set|]. split.
  - intros s P H. rewrite dict_get_set_other; [exact H|].
    intros ->. congruence.
  - now apply unique_keys_dict_set.
Qed.

Lemma fetch_asset_map_grows (repo : text) (asset : Asset) :
  preserves map_grows (fetch_asset repo asset).
Proof.
  unfold fetch_asset.
  destruct (negb _); [apply (@preserves_ret _ _ map_grows_refl)|].
  apply (@preserves_bind _ _ map_grows_trans);
    [|intros _; apply extract_package_map_grows].
  apply preserves_get_bind; intros f.
  destruct (dict_get _ _).
  - apply in_world_map_grows.
  - apply (@preserves_bind _ _ map_grows_trans);
      [apply in_world_map_grows | intros _].
    destruct (payload asset) as [e|e remains|file];
      [apply (@preserves_raise _ _ map_grows_refl)| |].
    { apply (@preserves_bind _ _ map_grows_trans);
        [apply in_world_map_grows | intros _].
      apply (@preserves_raise _ _ map_grows_refl). }
    repeat (apply (@preserves_bind _ _ map_grows_trans);
            [apply in_world_map_grows | intros _]).
    apply preserves_modify; intros f'. now apply map_grows_same.
Qed.

Lemma check_repo_map_grows (o : Outside) (repo : text) :
  preserves map_grows (check_repo o repo).
Proof.
  unfold check_repo.
  apply (@preserves_bind _ _ map_grows_trans);
    [apply in_world_map_grows | intros _].
  apply (@preserves_try_except _ _ map_grows_trans).
  - destruct (latest_release o repo) as [e|assets].
    + apply (@preserves_raise _ _ map_grows_refl).
    + apply (@preserves_for_each _ _ map_grows_refl map_grows_trans).
      intros asset. apply fetch_asset_map_grows.
  - intros e. destruct e; try apply in_world_map_grows;
      (apply (@preserves_bind _ _ map_grows_trans);
       [apply in_world_map_grows | intros _; apply in_world_map_grows]).
Qed.

(** C9, as stated, fails.  After a first run has persisted
    [octo/app -> org.example.app], a run that finds the map file absent, or
    cut short so that it does not parse, starts from an empty map and
    overwrites the file: with the release host unreachable the entry is gone,
    and with a release that ships another package the entry comes back with
    another value. *)
Lemma entry_lost_when_map_file_unreadable :
  dict_get (load_map (repo_package_map_json octo_mapped)) octo
  = Some (T "org.example.app") /\
  json_load truncated_map = None /\
  dict_get (load_map (repo_package_map_json
              (snd (fetch_apks offline_outside
                      (set_repo_package_map_json None octo_mapped))))) octo
  = None /\
  dict_get (load_map (repo_package_map_json
              (snd (fetch_apks offline_outside
                      (set_repo_package_map_json (Some truncated_map) octo_mapped))))) octo
  = None /\
  dict_get (load_map (repo_package_map_json
              (snd (fetch_apks renamed_outside
                      (set_repo_package_map_json None octo_mapped))))) octo
  = Some (T "org.example.renamed").
Proof. repeat split; vm_compute; reflexivity. Qed.

(** C9, amended. If the map file exists and parses when [fetch_apks] loads
    it and maps a repository to [P], then after the run the persisted map
    still maps that repository to [P]: whatever the release host answers,
    also when a fresh artifact of that repository is downloaded and
    inspected, and also when [repos.json] is missing or unreadable. *)
Theorem fetch_apks_keeps_known_entries :
  forall (o : Outside) (w : World) (doc : document) (m : dict text)
         (repo P : text),
    repo_package_map_json w = Some doc ->
    json_load doc = Some m ->
    dict_get m repo = Some P ->
    dict_get (load_map (repo_package_map_json (snd (fetch_apks o w)))) repo = Some P.
Proof.
  intros o w doc m repo P Hfile Hload Hget.
  assert (Hm : load_map (repo_package_map_json w) = m).
  { unfold load_map. now rewrite Hfile, Hload. }
  assert (Hv : load_value (repo_package_map_json w) = PDict (lift m)).
  { rewrite Hfile. now apply load_value_flat. }
  unfold fetch_apks.
  destruct (repos_json w) as [[|repos]|]; simpl.
  - now rewrite Hm.
  - pose proof (@preserves_for_each _ _ map_grows_refl map_grows_trans _ repos
                  (check_repo o) (check_repo_map_grows o)
                  {| world := w; downloaded := false;
                     repo_package_map := load_value (repo_package_map_json w) |})
      as Hgrow.
    destruct (Hgrow m Hv (json_load_unique _ Hload)) as (m' & Hm' & Hkeep & Huniq).
    pose proof (check_repo_never_raises o) as Hnr.
    destruct (@never_raises_for_each _ _ repos (check_repo o) Hnr
                {| world := w; downloaded := false;
                   repo_package_map := load_value (repo_package_map_json w) |})
      as [[] Hdone].
    destruct (for_each repos (check_repo o) _) as [[[]|e] f]; [|discriminate].
    cbn [snd] in Hm'.
    cbn [snd set_repo_package_map_json repo_package_map_json].
    rewrite Hm'. unfold save_value. rewrite dump_value_lift.
    change (Some (json_dump m')) with (save_map m').
    rewrite load_map_save_map by exact Huniq.
    now apply Hkeep.
  - now rewrite Hm.
Qed.

Lemma fetch_apks_keeps_known_entries_witness :
  dict_get (load_map (repo_package_map_json
              (snd (fetch_apks renamed_outside octo_mapped)))) octo
  = Some (T "org.example.app").
Proof.
  apply (@fetch_apks_keeps_known_entries renamed_outside octo_mapped
           (json_dump [(octo, T "org.example.app")])
           [(octo, T "org.example.app")] octo (T "org.example.app"));
    vm_compute; reflexivity.
Defined.

End IdentityClaims.

(** ** Saving the identity map *)

Section SaveClaims.

Import Store.

Variable flush_now : document -> bool.

Lemma apply_ops_app (fs : files) (a b : list fs_op) :
  apply_ops flush_now fs (a ++ b)
  = apply_ops flush_now (apply_ops flush_now fs a) b.
Proof. unfold apply_ops. apply fold_left_app. Qed.

Lemma observations_app (a b : list fs_op) :
  forall fs,
    observations flush_now fs (a ++ b)
    = observations flush_now fs a
      ++ observations flush_now (apply_ops flush_now fs a) b.
Proof.
  induction a as [|op r IH]; intros fs; simpl; [reflexivity|].
  now rewrite IH.
Qed.

(** While the pieces are written, what is on disk and what is in the buffer
    make up what was written so far. *)
Lemma writes_buffered (toks : document) :
  forall (fs : files) (pre : document),
    map_file fs = Some pre ->
    exists pre',
      map_file (apply_ops flush_now fs (map (WriteChunk MapFile) toks)) = Some pre' /\
      pre' ++ pending (apply_ops flush_now fs (map (WriteChunk MapFile) toks))
      = pre ++ pending fs ++ toks.
Proof.
  induction toks as [|t r IH]; intros fs pre Hpre.
  - exists pre. split; [exact Hpre|]. simpl. now rewrite app_nil_r.
  - change (apply_ops flush_now fs (map (WriteChunk MapFile) (t :: r)))
      with (apply_ops flush_now (apply_op flush_now fs (WriteChunk MapFile t))
              (map (WriteChunk MapFile) r)).
    assert (Hstep : exists pre1,
               map_file (apply_op flush_now fs (WriteChunk MapFile t)) = Some pre1 /\
               pre1 ++ pending (apply_op flush_now fs (WriteChunk MapFile t))
               = pre ++ pending fs ++ [t]).
    { unfold apply_op. cbn [pending].
      destruct (flush_now (pending fs ++ [t])).
      - unfold flush. cbn [read_file map_file]. rewrite Hpre.
        cbn [write_file map_file pending].
        exists (pre ++ pending fs ++ [t]). split; [reflexivity|].
        now rewrite app_nil_r.
      - exists pre. split; [exact Hpre | reflexivity]. }
    destruct Hstep as (pre1 & Hmap1 & Hsum1).
    destruct (IH _ pre1 Hmap1) as (pre' & Hmap' & Hsum').
    exists pre'. split; [exact Hmap'|].
    rewrite Hsum', app_assoc, Hsum1, <- !app_assoc. reflexivity.
Qed.

(** With a buffer that is written out only on closing, the file stays as it
    is while the pieces are written. *)
Lemma writes_unseen (toks : document) :
  (forall buffer, flush_now buffer = false) ->
  forall (fs : files),
    observations flush_now fs (map (WriteChunk MapFile) toks)
    = repeat (map_file fs) (List.length toks).
Proof.
  intros Hnever. induction toks as [|t r IH]; intros fs; [reflexivity|].
  cbn [map observations List.length repeat].
  assert (Hstep : map_file (apply_op flush_now fs (WriteChunk MapFile t))
                  = map_file fs).
  { unfold apply_op. cbn [pending]. now rewrite Hnever. }
  now rewrite IH, Hstep.
Qed.

Lemma save_ops_result (v : py) (fs : files) :
  map_file (apply_ops flush_now fs (save_ops v)) = save_value v.
Proof.
  unfold save_ops.
  change (OpenTruncate MapFile :: map (WriteChunk MapFile) (dump_value v)
          ++ [Close MapFile])
    with ([OpenTruncate MapFile]
          ++ map (WriteChunk MapFile) (dump_value v) ++ [Close MapFile]).
  rewrite !apply_ops_app.
  set (fs0 := apply_ops flush_now fs [OpenTruncate MapFile]).
  assert (H0 : map_file fs0 = Some []) by reflexivity.
  assert (Hp0 : pending fs0 = []) by reflexivity.
  destruct (writes_buffered (dump_value v) fs0 H0) as (pre' & Hmap & Hsum).
  rewrite Hp0 in Hsum. simpl in Hsum.
  set (fs1 := apply_ops flush_now fs0 (map (WriteChunk MapFile) (dump_value v))) in *.
  unfold apply_ops. cbn [fold_left apply_op]. unfold flush.
  cbn [read_file]. rewrite Hmap. cbn [write_file map_file].
  unfold save_value. now rewrite Hsum.
Qed.

(** C10, as stated, fails: the save opens the map file itself for writing,
    which empties it, and only then writes the document through the
    buffered file object.  For a short document, which stays in the buffer
    until the file is closed, a reader sees the emptied file all the while
    and then the new document; the empty file is not a document.  The save
    described in the specification would show the old document until the new
    one is complete. *)
Lemma save_exposes_partial_documents :
  let old := json_dump [] in
  let v := PDict (lift [(octo, T "org.example.app")]) in
  let fs := {| map_file := Some old; temp_file := None; pending := [] |} in
  let on_close := fun _ : document => false in
  save_ops v <> spec_save_ops v /\
  observations on_close fs (save_ops v)
  = [Some []; Some []; Some []; Some []; Some []; Some [];
     Some (dump_value v)] /\
  json_load_value [] = None /\
  observations on_close fs (spec_save_ops v)
  = [Some old; Some old; Some old; Some old; Some old; Some old; Some old;
     Some (dump_value v)].
Proof.
  repeat split; try (vm_compute; reflexivity).
  intros H. vm_compute in H. discriminate.
Qed.

(** C10, amended. Saving writes the map file in place: every primitive of
    the save is an open-for-writing, a write or the close of the map file
    itself, with no temporary file and no replace step.  Whatever the file
    object's buffering, the first thing a reader can see is the emptied
    file, which is not a document, and once the save is complete the file
    holds the whole document; when the buffer is written out only on
    closing, the reader sees the emptied file until then. *)
Theorem save_overwrites_in_place :
  forall (v : py) (fs : files),
    Forall writes_map_file_in_place (save_ops v) /\
    hd_error (observations flush_now fs (save_ops v)) = Some (Some []) /\
    json_load_value [] = None /\
    map_file (apply_ops flush_now fs (save_ops v)) = save_value v /\
    ((forall buffer, flush_now buffer = false) ->
     observations flush_now fs (save_ops v)
     = repeat (Some []) (S (List.length (dump_value v))) ++ [save_value v]).
Proof.
  intros v fs.
  split; [|split; [|split; [|split]]].
  - unfold save_ops. constructor; [exact I|].
    apply Forall_app. split; [|repeat constructor].
    apply Forall_forall. intros op Hin. apply in_map_iff in Hin.
    destruct Hin as (t & <- & _). exact I.
  - reflexivity.
  - reflexivity.
  - apply save_ops_result.
  - intros Hnever.
    pose proof (save_ops_result v fs) as Hend.
    unfold save_ops in *.
    change (OpenTruncate MapFile :: map (WriteChunk MapFile) (dump_value v)
            ++ [Close MapFile])
      with ([OpenTruncate MapFile]
            ++ map (WriteChunk MapFile) (dump_value v) ++ [Close MapFile]) in *.
    rewrite !apply_ops_app in Hend.
    rewrite !observations_app.
    rewrite (writes_unseen (dump_value v) Hnever).
    cbn [observations].
    change (apply_op flush_now
              (apply_ops flush_now (apply_ops flush_now fs [OpenTruncate MapFile])
                 (map (WriteChunk MapFile) (dump_value v))) (Close MapFile))
      with (apply_ops flush_now
              (apply_ops flush_now (apply_ops flush_now fs [OpenTruncate MapFile])
                 (map (WriteChunk MapFile) (dump_value v))) [Close MapFile]).
    rewrite Hend. reflexivity.
Qed.

End SaveClaims.

(** ** Further properties of the build invocation *)

Section BuilderExtras.

Import Config Builder.

(** For a configuration written with plain newlines that has neither a
    marker line nor a [keystore:] line, every invocation (signing or not,
    with the tool succeeding or failing) leaves the file with exactly one
    newline added at its end. *)
Theorem plain_config_gains_one_newline :
  forall (o : Outside) (sign : bool) (w : World) (file : text),
    base_config w = Some file ->
    no_CR file = true ->
    has_marker (readlines file) = false ->
    has_keystore (readlines file) = false ->
    config_yml (snd (run_fdroid_update o sign w)) = Some (file ++ [LF]).
Proof.
  intros o sign w file Hbase Hcr Hm Hk.
  rewrite run_fdroid_update_config, Hbase. simpl. f_equal.
  unfold patch_and_restore, cleanup_leftover. rewrite Hm.
  unfold add_config. rewrite Hk. unfold remove_config.
  destruct (readlines_patched (environ o) file)
    as (u & ls & rest & Hu & Heq & Hclosed & Hcat & Hmark & Hlines).
  rewrite universal_newlines_app in Heq by assumption.
  apply app_inj_tail in Heq. destruct Heq as [<- _].
  rewrite Hlines, write_until_marker_app; [exact Hcat | | reflexivity].
  apply Hmark. unfold readlines in Hm.
  now rewrite universal_newlines_id in Hm.
Qed.

Lemma plain_config_gains_one_newline_witness :
  config_yml (snd (run_fdroid_update (quiet_outside true false no_environ) true
                     (world_with_config plain_config)))
  = Some (plain_config ++ [LF]).
Proof.
  apply (@plain_config_gains_one_newline (quiet_outside true false no_environ) true
           (world_with_config plain_config) plain_config);
    reflexivity.
Defined.

(** With a permanent [keystore:] line and no marker line, the invocation
    appends nothing and the file is afterwards exactly what it was. *)
Theorem configured_keystore_leaves_file_alone :
  forall (o : Outside) (sign : bool) (w : World) (file : text),
    base_config w = Some file ->
    has_marker (readlines file) = false ->
    has_keystore (readlines file) = true ->
    config_yml (snd (run_fdroid_update o sign w)) = Some file.
Proof.
  intros o sign w file Hbase Hm Hk.
  rewrite run_fdroid_update_config, Hbase. simpl. f_equal.
  unfold patch_and_restore, cleanup_leftover. rewrite Hm.
  unfold add_config. now rewrite Hk.
Qed.

Lemma configured_keystore_leaves_file_alone_witness :
  config_yml (snd (run_fdroid_update (quiet_outside true true no_environ) true
                     (world_with_config signed_config)))
  = Some signed_config.
Proof.
  apply (@configured_keystore_leaves_file_alone (quiet_outside true true no_environ)
           true (world_with_config signed_config) signed_config);
    reflexivity.
Defined.

(** When the [try] block starts the tool, [config.yml] has a [keystore:]
    line: either its own, or the one of the block just appended, which is
    read as a line of its own whatever the file ended with. *)
Theorem keystore_line_present_for_build :
  forall (o : Outside) (w : World) (file : text),
    config_yml w = Some file ->
    exists file',
      config_yml (snd (add_keystore o w)) = Some file' /\
      has_keystore (readlines file') = true.
Proof.
  intros o w file Hc.
  destruct (add_keystore_spec o w Hc) as [_ Hfile].
  exists (fst (add_config (environ o) file)). split; [exact Hfile|].
  unfold add_config.
  destruct (has_keystore (readlines file)) eqn:Hk; simpl; [exact Hk|].
  destruct (readlines_patched (environ o) file)
    as (u & ls & rest & _ & _ & _ & _ & _ & Hlines).
  rewrite Hlines. unfold has_keystore. rewrite existsb_app. simpl.
  replace (startswith (T "keystore:") (strip (keystore_line ++ [LF]))) with true
    by (vm_compute; reflexivity).
  now rewrite !orb_true_r.
Qed.

Lemma keystore_line_present_for_build_witness :
  exists file',
    config_yml (snd (add_keystore (quiet_outside true true no_environ)
                       (world_with_config plain_config))) = Some file' /\
    has_keystore (readlines file') = true.
Proof.
  apply (@keystore_line_present_for_build (quiet_outside true true no_environ)
           (world_with_config plain_config) plain_config); reflexivity.
Defined.

End BuilderExtras.

(** ** The loop and its sleep *)

Section LoopExtras.

Import Scheduler.

Lemma iteration_sleeps (o : Outside) (w : World) :
  exists w', iteration o w = (Done tt, emit Sleep (emit (Log MSleeping) w')).
Proof.
  unfold iteration, try_except, bind, log, modify.
  destruct (update_check o w) as [[[]|e] w1]; simpl; eexists; reflexivity.
Qed.

(** With a poll interval that [time.sleep] accepts (not negative and not
    beyond what the platform converts), whatever happens inside the cycles
    (a raised exception in the fetcher, the harvester, the reconciler, the
    tool or anywhere else in the [try] block), the first [n + 1] iterations
    of the loop all complete, and the last thing done is the sleep.  With a
    negative poll interval the loop ends in the first iteration: the cycle
    runs, and [time.sleep] raises [ValueError] outside the [try] block. *)
Theorem main_loop_keeps_polling :
  forall (sleep_max poll_interval : Z) (outside : nat -> Outside) (n c : nat)
         (w : World),
    ((0 <= poll_interval <= sleep_max)%Z ->
     fst (main_loop sleep_max poll_interval outside c (S n) w) = Done tt /\
     last (trace (snd (main_loop sleep_max poll_interval outside c (S n) w)))
          Traceback = Sleep) /\
    ((poll_interval < 0)%Z ->
     main_loop sleep_max poll_interval outside c (S n) w
     = (Raised ValueError, snd (iteration (outside c) w))).
Proof.
  intros sleep_max poll_interval outside n c w. split.
  - intros Hint. revert c w. induction n as [|n IH]; intros c w.
    + destruct (iteration_sleeps (outside c) w) as [w' Hw'].
      rewrite (@main_loop_next sleep_max poll_interval outside c 0 w _ Hw' Hint). simpl.
      split; [reflexivity|]. apply last_last.
    + destruct (iteration_sleeps (outside c) w) as [w' Hw'].
      rewrite (@main_loop_next sleep_max poll_interval outside c (S n) w _ Hw' Hint).
      apply IH.
  - intros Hneg.
    destruct (iteration_sleeps (outside c) w) as [w' Hw'].
    rewrite Hw'. now apply main_loop_ends.
Qed.

Lemma main_loop_keeps_polling_witness :
  fst (main_loop 1000 900 (fun _ => octo_outside false true) 0 2
         (octo_world (Some plain_config))) = Done tt /\
  last (trace (snd (main_loop 1000 900 (fun _ => octo_outside false true) 0 2
                      (octo_world (Some plain_config))))) Traceback = Sleep.
Proof.
  apply (@main_loop_keeps_polling 1000 900 (fun _ => octo_outside false true) 1 0
           (octo_world (Some plain_config))).
  lia.
Defined.

End LoopExtras.

(** ** Further properties of the harvester *)

Section HarvesterExtras.

Import Harvester.



Lemma try_branches_all_fail (o : Outside) (repo owner repo_name : text)
    (branches : list text) (w : World) :
  (forall branch, In branch branches ->
                  exists e, title (fastlane o repo branch) = TitleError e) ->
  fst (try_branches o repo owner repo_name branches w) = Done tt /\
  temp_metadata (snd (try_branches o repo owner repo_name branches w))
  = temp_metadata w.
Proof.
  revert w. induction branches as [|branch rest IH]; intros w Hfail; simpl.
  - split; reflexivity.
  - destruct (Hfail branch (or_introl eq_refl)) as [e He]. rewrite He.
    assert (Hrest : forall b, In b rest ->
                              exists e, title (fastlane o repo b) = TitleError e)
      by (intros b Hb; apply Hfail; now right).
    destruct e; unfold bind, log, modify, ret; simpl;
      try destruct (Nat.eqb code 404); simpl;
      match goal with
      | |- context [try_branches _ _ _ _ _ ?w'] => apply (IH w' Hrest)
      end.
Qed.

(** When the title cannot be fetched from [main] nor from [master],
    whatever the errors, the repository is passed over: nothing is raised
    and the staging area is as it was. *)
Theorem no_title_no_bundle :
  forall (o : Outside) (repo : text) (w : World),
    is_slug repo = true ->
    (forall branch, exists e, title (fastlane o repo branch) = TitleError e) ->
    fst (harvest o repo w) = Done tt /\
    temp_metadata (snd (harvest o repo w)) = temp_metadata w.
Proof.
  intros o repo w Hslug Hfail. unfold harvest, is_slug in *.
  erewrite bind_done by apply log_done.
  destruct (split "/" repo) as [|owner [|repo_name [|x l]]]; try discriminate.
  apply (try_branches_all_fail o repo owner repo_name _
           (emit (Log (MFetchingMetadata repo)) w)).
  intros branch _. apply Hfail.
Qed.

Lemma no_title_no_bundle_witness :
  fst (harvest offline_outside idle (octo_world None)) = Done tt /\
  temp_metadata (snd (harvest offline_outside idle (octo_world None)))
  = temp_metadata (octo_world None).
Proof.
  apply (@no_title_no_bundle offline_outside idle (octo_world None));
    [reflexivity|].
  intros branch. unfold offline_outside, octo_outside. simpl.
  replace (text_eqb idle octo) with false by (vm_compute; reflexivity).
  simpl. eexists. reflexivity.
Defined.





End HarvesterExtras.

(** ** Further properties of the reconciler *)

Section ReconcilerExtras.

Import Reconciler.

(** On a map of strings the loop body for any loaded map is the loop body
    for strings. *)
Lemma find_match_lift (m : dict text) (dir_name : text) :
  find_match (Store.lift m) dir_name
  = option_map (fun p => (fst p, Store.PStr (snd p))) (find_match m dir_name).
Proof.
  induction m as [|[k v] r IH]; simpl; [reflexivity|].
  destruct (text_eqb dir_name _); [reflexivity | exact IH].
Qed.

Lemma apply_bundle_lift (format_dict : dict Store.py -> text) (m : dict text)
    (entry : text * Bundle) (w : World) :
  @apply_bundle _ (py_id format_dict) (Store.lift m) entry w
  = apply_bundle m entry w.
Proof.
  destruct entry as [key bundle]. unfold apply_bundle.
  rewrite find_match_lift.
  destruct (find_match m _) as [[repo_slug package]|]; [|reflexivity].
  destruct package; reflexivity.
Qed.

Lemma for_each_ext {S A} (xs : list A) (f g : A -> M S unit) :
  (forall x s, f x s = g x s) -> forall s, for_each xs f s = for_each xs g s.
Proof.
  intros H. induction xs as [|x r IH]; intros s; [reflexivity|].
  cbn [for_each]. unfold bind. rewrite H.
  destruct (g x s) as [[[]|e] s']; [apply IH | reflexivity].
Qed.

(** With PyYAML and a map file that holds an object of strings, the
    reconciler applies every staged bundle against that map and removes the
    bundles. *)
Lemma apply_fastlane_metadata_flat (o : Outside) (w : World)
    (doc : Store.document) (m : dict text) :
  yaml o = true ->
  repo_package_map_json w = Some doc ->
  Store.json_load doc = Some m ->
  apply_fastlane_metadata o w
  = (Done tt,
     set_temp_metadata []
       (snd (for_each (temp_metadata w) (apply_bundle m) w))).
Proof.
  intros Hy Hfile Hload.
  rewrite (@apply_fastlane_metadata_done o w (Store.lift m) Hy);
    [|rewrite Hfile; now apply load_value_flat].
  rewrite (for_each_ext (temp_metadata w) _ (apply_bundle m)); [reflexivity|].
  intros entry s. apply apply_bundle_lift.
Qed.

Lemma same_record_files_refl (w : World) : same_record_files w w.
Proof. reflexivity. Qed.

Lemma same_record_files_trans (a b c : World) :
  same_record_files a b -> same_record_files b c -> same_record_files a c.
Proof. unfold same_record_files. congruence. Qed.

Lemma dict_get_some_key {V} (d : dict V) (k : text) (v : V) :
  dict_get d k = Some v -> In k (keys d).
Proof.
  induction d as [|[k' v'] r IH]; simpl; [discriminate|].
  destruct (text_eqb k k') eqn:E; [apply text_eqb_eq in E; auto | auto].
Qed.

Lemma apply_bundle_same_record_files {V} (id : PackageId V) (m : dict V)
    (entry : text * Bundle) :
  preserves same_record_files (@apply_bundle V id m entry).
Proof.
  intros w. destruct entry as [key bundle]. unfold apply_bundle.
  destruct (find_match m _) as [[repo_slug package_id]|]; [|reflexivity].
  destruct (falsy package_id); [reflexivity|].
  unfold bind, get, log, modify, try_except, ret, raise. simpl.
  destruct (dict_get (metadata w) (shown package_id)) as [loaded|] eqn:Erec;
    simpl; [|reflexivity].
  destruct (updated_record loaded _) as [e|data]; simpl; [reflexivity|].
  destruct (joins_path package_id); simpl; unfold same_record_files; simpl;
    apply keys_dict_set_known; eapply dict_get_some_key; exact Erec.
Qed.

(** The reconciler neither creates nor removes a record file: the packages
    that have a record after [apply_fastlane_metadata] are those that had
    one before, in the same order. *)
Theorem reconciler_keeps_the_record_files :
  forall (o : Outside) (w : World),
    keys (metadata (snd (apply_fastlane_metadata o w))) = keys (metadata w).
Proof.
  intros o w.
  assert (H : preserves same_record_files (apply_fastlane_metadata o));
    [|exact (H w)].
  unfold apply_fastlane_metadata, cleanup.
  destruct (yaml o); cbn [negb]; [|intros w0; reflexivity].
  apply preserves_get_bind. intros w0.
  apply (@preserves_bind _ _ same_record_files_trans).
  - destruct (Store.load_value _).
    + apply (@preserves_for_each _ _ same_record_files_refl same_record_files_trans).
      intros entry. apply (@preserves_raise _ _ same_record_files_refl).
    + apply (@preserves_for_each _ _ same_record_files_refl same_record_files_trans).
      intros entry. apply apply_bundle_same_record_files.
    + apply (@preserves_for_each _ _ same_record_files_refl same_record_files_trans).
      intros entry. apply (@preserves_raise _ _ same_record_files_refl).
  - intros _. apply preserves_modify. intros w1. reflexivity.
Qed.

Lemma same_records_refl (w : World) : same_records w w.
Proof. now split. Qed.

Lemma same_records_trans (a b c : World) :
  same_records a b -> same_records b c -> same_records a c.
Proof. intros [H1 H2] [H3 H4]. split; congruence. Qed.

(** When the identity map has no entry (the map file is absent, is not
    valid JSON, or holds an empty object) no staged bundle can be routed:
    the records and the published media are left exactly as they were, and
    the bundles are removed all the same. *)
Theorem unrouted_bundles_change_no_record :
  forall (o : Outside) (w : World),
    yaml o = true ->
    Store.load_value (repo_package_map_json w) = Store.PDict [] ->
    fst (apply_fastlane_metadata o w) = Done tt /\
    metadata (snd (apply_fastlane_metadata o w)) = metadata w /\
    published (snd (apply_fastlane_metadata o w)) = published w /\
    temp_metadata (snd (apply_fastlane_metadata o w)) = [].
Proof.
  intros o w Hy Hmap.
  rewrite (apply_fastlane_metadata_done o w Hy Hmap). cbn [fst snd].
  assert (H : preserves same_records
                (for_each (temp_metadata w)
                   (@apply_bundle _ (py_id (format_dict o)) []))).
  { apply (@preserves_for_each _ _ same_records_refl same_records_trans).
    intros [key bundle] w1. simpl. now split. }
  destruct (H w) as [Hm Hp]. auto.
Qed.

Lemma unrouted_bundles_change_no_record_witness :
  fst (apply_fastlane_metadata (octo_outside true true)
         (set_repo_package_map_json None (staged_world [(T "org.example.app", skeleton_record)])))
  = Done tt /\
  metadata (snd (apply_fastlane_metadata (octo_outside true true)
         (set_repo_package_map_json None (staged_world [(T "org.example.app", skeleton_record)]))))
  = metadata (set_repo_package_map_json None
                (staged_world [(T "org.example.app", skeleton_record)])) /\
  published (snd (apply_fastlane_metadata (octo_outside true true)
         (set_repo_package_map_json None (staged_world [(T "org.example.app", skeleton_record)]))))
  = published (set_repo_package_map_json None
                 (staged_world [(T "org.example.app", skeleton_record)])) /\
  temp_metadata (snd (apply_fastlane_metadata (octo_outside true true)
         (set_repo_package_map_json None (staged_world [(T "org.example.app", skeleton_record)]))))
  = [].
Proof.
  apply (@unrouted_bundles_change_no_record (octo_outside true true)
           (set_repo_package_map_json None
              (staged_world [(T "org.example.app", skeleton_record)])));
    reflexivity.
Defined.

Lemma dict_get_app {V} (a b : dict V) (k : text) :
  dict_get (a ++ b) k
  = match dict_get a k with Some v => Some v | None => dict_get b k end.
Proof.
  induction a as [|[k' v'] r IH]; simpl; [reflexivity|].
  destruct (text_eqb k k'); [reflexivity | exact IH].
Qed.

Lemma dict_get_set {V} (d : dict V) (k0 k : text) (v0 : V) :
  dict_get (dict_set d k0 v0) k = if text_eqb k k0 then Some v0 else dict_get d k.
Proof.
  destruct (text_eqb k k0) eqn:E.
  - apply text_eqb_eq in E. subst. apply dict_get_set_same.
  - apply dict_get_set_other. intros ->. now rewrite text_eqb_refl in E.
Qed.

(** After a run of assignments a field holds the value assigned to it last,
    or its old value if none was. *)
Lemma assign_all_get (fields : list (text * text)) :
  forall (d : dict text) (k : text),
    dict_get (assign_all d fields) k
    = match dict_get (rev fields) k with
      | Some v => Some v
      | None => dict_get d k
      end.
Proof.
  unfold assign_all.
  induction fields as [|[k0 v0] r IH]; intros d k; simpl; [reflexivity|].
  rewrite IH, dict_get_app, dict_get_set. simpl.
  destruct (dict_get (rev r) k); [reflexivity|].
  destruct (text_eqb k k0); reflexivity.
Qed.

Lemma dict_get_not_key {V} (d : dict V) (k : text) :
  ~ In k (keys d) -> dict_get d k = None.
Proof.
  induction d as [|[k' v'] r IH]; simpl; [reflexivity|].
  intros H. destruct (text_eqb k k') eqn:E.
  - apply text_eqb_eq in E. subst. tauto.
  - apply IH. tauto.
Qed.

(** When a staged bundle with a title is routed to a package whose record
    is a mapping, the written record names the app by the title as
    [read_text] returns it (line ends translated to newlines), stripped;
    it credits the owner part of the slug as author and links to the GitHub
    pages of the slug; every field outside the seven the reconciler assigns
    keeps the value it had. *)
Theorem routed_bundle_fills_the_record :
  forall (m : dict text) (key : text) (bundle : Bundle) (w : World)
         (repo_slug package t : text) (d : dict text),
    package <> [] ->
    repo_slug <> [] ->
    find_match m (remove_all (T ".temp_metadata_") (T ".temp_metadata_" ++ key))
    = Some (repo_slug, package) ->
    dict_get (metadata w) package = Some (YMap d) ->
    title_txt bundle = Some t ->
    exists d',
      dict_get (metadata (snd (apply_bundle m (key, bundle) w))) package
      = Some (YMap d') /\
      dict_get d' (T "Name") = Some (strip (read_text t)) /\
      dict_get d' (T "AuthorName") = Some (hd [] (split "/" repo_slug)) /\
      dict_get d' (T "SourceCode") = Some (T "https://github.com/" ++ repo_slug) /\
      dict_get d' (T "WebSite") = Some (T "https://github.com/" ++ repo_slug) /\
      dict_get d' (T "IssueTracker")
      = Some (T "https://github.com/" ++ repo_slug ++ T "/issues") /\
      (forall k, ~ In k reconciled_fields -> dict_get d' k = dict_get d k).
Proof.
  intros m key bundle w repo_slug package t d Hp Hs Hfind Hrec Htitle.
  exists (assign_all d (staged_fields bundle ++ repo_fields repo_slug)).
  split.
  - unfold apply_bundle. rewrite Hfind.
    destruct package as [|c package]; [congruence|].
    unfold bind, get, log, modify, try_except, ret. simpl.
    rewrite Hrec. simpl. apply dict_get_set_same.
  - unfold staged_fields. rewrite Htitle.
    destruct repo_slug as [|c slug]; [congruence|].
    destruct (short_description_txt bundle), (full_description_txt bundle);
      (repeat split;
       [ rewrite assign_all_get; cbv -[strip read_text split hd app]; reflexivity ..
       | intros k Hk; rewrite assign_all_get, dict_get_not_key; [reflexivity|];
         intros Hin; apply Hk; unfold reconciled_fields;
         simpl in Hin; simpl; tauto ]).
Qed.

Lemma routed_bundle_fills_the_record_witness :
  exists d',
    dict_get (metadata (snd (apply_bundle [(octo, T "org.example.app")]
                               (T "octo_app", octo_bundle)
                               (staged_world [(T "org.example.app", skeleton_record)]))))
             (T "org.example.app") = Some (YMap d') /\
    dict_get d' (T "Name") = Some (strip (read_text (T "My App"))) /\
    dict_get d' (T "AuthorName") = Some (hd [] (split "/" octo)) /\
    dict_get d' (T "SourceCode") = Some (T "https://github.com/" ++ octo) /\
    dict_get d' (T "WebSite") = Some (T "https://github.com/" ++ octo) /\
    dict_get d' (T "IssueTracker") = Some (T "https://github.com/" ++ octo ++ T "/issues") /\
    (forall k, ~ In k reconciled_fields ->
               dict_get d' k
               = dict_get [(T "Categories", T "System"); (T "Name", T "app")] k).
Proof.
  apply (@routed_bundle_fills_the_record [(octo, T "org.example.app")]
           (T "octo_app") octo_bundle
           (staged_world [(T "org.example.app", skeleton_record)])
           octo (T "org.example.app") (T "My App")
           [(T "Categories", T "System"); (T "Name", T "app")]);
    first [ discriminate | reflexivity ].
Defined.

End ReconcilerExtras.

(** ** Further properties of the fetcher *)

Section FetcherProgress.

Import Fetcher.

Lemma downloads_app (a b : list event) :
  downloads (a ++ b) = downloads a ++ downloads b.
Proof. apply flat_map_app. Qed.

Lemma nonempty_app {A} (a b : list A) :
  nonempty (a ++ b) = nonempty a || nonempty b.
Proof. destruct a; reflexivity. Qed.

Lemma fetch_progress_same (f f' : Frame) :
  repo_dir (world f') = repo_dir (world f) ->
  downloads (trace (world f')) = downloads (trace (world f)) ->
  downloaded f' = downloaded f ->
  fetch_progress f f'.
Proof.
  intros Hr Ht Hd. unfold fetch_progress. rewrite Hr, Ht, Hd.
  split; [intros k v H; exact H|].
  exists []. now rewrite app_nil_r, orb_false_r.
Qed.

Lemma fetch_progress_refl (f : Frame) : fetch_progress f f.
Proof. now apply fetch_progress_same. Qed.

Lemma fetch_progress_trans (a b c : Frame) :
  fetch_progress a b -> fetch_progress b c -> fetch_progress a c.
Proof.
  intros [H1 (new1 & T1 & D1)] [H3 (new2 & T2 & D2)]. split.
  - intros k v H. apply H3, H1, H.
  - exists (new1 ++ new2). split.
    + now rewrite T2, T1, app_assoc.
    + now rewrite D2, D1, nonempty_app, orb_assoc.
Qed.

Lemma downloads_emit (ev : event) (w : World) :
  download_of ev = [] -> downloads (trace (emit ev w)) = downloads (trace w).
Proof.
  intros H. simpl. rewrite downloads_app. simpl. now rewrite H, !app_nil_r.
Qed.

Lemma in_world_log_fetch_progress (m : message) :
  download_of (Log m) = [] -> preserves fetch_progress (in_world (log m)).
Proof.
  intros H f. apply fetch_progress_same; [reflexivity | | reflexivity].
  now apply downloads_emit.
Qed.

Lemma extract_package_fetch_progress (repo filename : text) :
  preserves fetch_progress (extract_package repo filename).
Proof.
  unfold extract_package.
  apply preserves_get_bind; intros f.
  destruct (Store.py_contains _ _) as [[|]|];
    [apply (@preserves_ret _ _ fetch_progress_refl) |
    |apply (@preserves_raise _ _ fetch_progress_refl)].
  destruct (dict_get _ _) as [[package|]|].
  - destruct (Store.py_setitem _ _ _);
      [|now apply in_world_log_fetch_progress].
    apply (@preserves_bind _ _ fetch_progress_trans).
    + apply preserves_modify; intros f'. now apply fetch_progress_same.
    + intros _. now apply in_world_log_fetch_progress.
  - now apply in_world_log_fetch_progress.
  - apply (@preserves_ret _ _ fetch_progress_refl).
Qed.

(** Lines 81-87: a download happens only for a name that is not there yet;
    when it completes, its line is printed and the flag is set; when it
    fails, what it wrote stays and the flag is left alone. *)
Lemma download_fetch_progress (asset : Asset) :
  preserves fetch_progress
    (f <- get ;;
     match dict_get (repo_dir (world f)) (name asset) with
     | Some _ => in_world (log (MAlreadyExists (name asset)))
     | None =>
         in_world (log (MDownloading (name asset))) ;;
         match payload asset with
         | Missing e => raise e
         | Broken e remains =>
             in_world (modify (fun w => set_repo_dir
                                 (dict_set (repo_dir w) (name asset) remains) w)) ;;
             raise e
         | Fetched file =>
             in_world (modify (fun w => set_repo_dir
                                 (dict_set (repo_dir w) (name asset) file) w)) ;;
             in_world (log (MDownloaded (name asset))) ;;
             modify (set_downloaded true)
         end
     end).
Proof.
  intros f. unfold bind, get, in_world, log, modify, raise. simpl.
  destruct (dict_get (repo_dir (world f)) (name asset)) eqn:E; simpl.
  { apply fetch_progress_same; [reflexivity | | reflexivity].
    now apply downloads_emit. }
  assert (Hnew : forall file,
            dict_extends (repo_dir (world f))
                         (dict_set (repo_dir (world f)) (name asset) file)).
  { intros file k v H. rewrite dict_get_set_other; [exact H|].
    intros ->. congruence. }
  destruct (payload asset) as [e|e remains|file]; simpl.
  - apply fetch_progress_same; [reflexivity | | reflexivity].
    now apply downloads_emit.
  - split; simpl; [apply Hnew|].
    exists []. rewrite downloads_app. simpl.
    now rewrite !app_nil_r, orb_false_r.
  - split; simpl; [apply Hnew|].
    exists [name asset]. rewrite !downloads_app. simpl.
    now rewrite !app_nil_r, orb_true_r.
Qed.

Lemma fetch_asset_fetch_progress (repo : text) (asset : Asset) :
  preserves fetch_progress (fetch_asset repo asset).
Proof.
  unfold fetch_asset.
  destruct (negb _); [apply (@preserves_ret _ _ fetch_progress_refl)|].
  apply (@preserves_bind _ _ fetch_progress_trans).
  - apply download_fetch_progress.
  - intros _. apply extract_package_fetch_progress.
Qed.

Lemma check_repo_fetch_progress (o : Outside) (repo : text) :
  preserves fetch_progress (check_repo o repo).
Proof.
  unfold check_repo.
  apply (@preserves_bind _ _ fetch_progress_trans);
    [now apply in_world_log_fetch_progress | intros _].
  apply (@preserves_try_except _ _ fetch_progress_trans).
  - destruct (latest_release o repo) as [e|assets].
    + apply (@preserves_raise _ _ fetch_progress_refl).
    + apply (@preserves_for_each _ _ fetch_progress_refl fetch_progress_trans).
      intros asset. apply fetch_asset_fetch_progress.
  - intros e f.
    destruct e; (apply fetch_progress_same; [reflexivity | | reflexivity]);
      simpl; rewrite ?downloads_app; simpl; now rewrite ?app_nil_r.
Qed.

Lemma fetch_apks_progress (o : Outside) (w : World) :
  dict_extends (repo_dir w) (repo_dir (snd (fetch_apks o w))) /\
  (forall flag repos w',
      fetch_apks o w = (Done (flag, repos), w') ->
      exists new,
        downloads (trace w') = downloads (trace w) ++ new /\
        flag = nonempty new).
Proof.
  unfold fetch_apks.
  destruct (repos_json w) as [[|repos]|]; simpl.
  - split; [intros k v H; exact H | discriminate].
  - pose proof (@preserves_for_each _ _ fetch_progress_refl fetch_progress_trans
                  _ repos (check_repo o) (check_repo_fetch_progress o)
                  {| world := w; downloaded := false;
                     repo_package_map :=
                       Store.load_value (repo_package_map_json w) |})
      as [Hkeep (new & Hnew & Hflag)].
    destruct (for_each repos (check_repo o) _) as [[[]|e] f]; simpl in *.
    + split; [exact Hkeep|].
      intros flag repos' w' H. inversion H as [[Hd Hr Hw]].
      exists new. split; [exact Hnew | exact Hflag].
    + split; [exact Hkeep | discriminate].
  - split; [intros k v H; exact H|].
    intros flag repos w' H. inversion H. exists [].
    simpl. rewrite downloads_app. simpl. now rewrite !app_nil_r.
Qed.

(** An artifact that is in the repository directory stays there with its
    content through any run of the fetcher: a file is downloaded only under
    a name that does not exist yet. *)
Theorem fetcher_never_replaces_an_artifact :
  forall (o : Outside) (w : World) (filename : text) (file : apk_file),
    dict_get (repo_dir w) filename = Some file ->
    dict_get (repo_dir (snd (fetch_apks o w))) filename = Some file.
Proof. intros o w filename file. apply fetch_apks_progress. Qed.

Lemma fetcher_never_replaces_an_artifact_witness :
  dict_get (repo_dir (snd (fetch_apks two_repo_outside two_repo_world)))
           (T "idle-3.0.apk") = Some (Apk (T "org.example.idle")).
Proof.
  apply (@fetcher_never_replaces_an_artifact two_repo_outside two_repo_world
           (T "idle-3.0.apk") (Apk (T "org.example.idle"))).
  reflexivity.
Defined.

(** The flag the fetcher returns tells whether a download was completed
    during the run: it is set exactly when the run printed a line
    [Downloaded ...].  A download that fails part-way leaves what it wrote
    in the repository directory without setting the flag. *)
Theorem flag_tells_completed_downloads :
  forall (o : Outside) (w w' : World) (flag : bool) (repos : list text),
    fetch_apks o w = (Done (flag, repos), w') ->
    exists new,
      downloads (trace w') = downloads (trace w) ++ new /\
      flag = nonempty new.
Proof. intros o w w' flag repos. apply fetch_apks_progress. Qed.

Lemma flag_tells_completed_downloads_witness :
  exists new,
    downloads (trace (snd (fetch_apks two_repo_outside two_repo_world)))
    = downloads (trace two_repo_world) ++ new /\
    true = nonempty new.
Proof.
  apply (@flag_tells_completed_downloads two_repo_outside two_repo_world
           (snd (fetch_apks two_repo_outside two_repo_world)) true [octo; idle]).
  vm_compute. reflexivity.
Defined.

(** A download that fails after it began to write leaves what it wrote
    under the artifact's name, raises, and does not set the flag.  From then
    on the file counts as present: whenever an asset of that name is looked
    at again, it is skipped as existing, whatever the host would deliver
    now; the partial file stays and the flag is not set for it. *)
Theorem partial_download_is_never_repaired :
  forall (repo : text) (asset : Asset) (e : exn) (remains : apk_file) (f : Frame),
    endswith (T ".apk") (name asset) = true ->
    dict_get (repo_dir (world f)) (name asset) = None ->
    payload asset = Broken e remains ->
    fst (fetch_asset repo asset f) = Raised e /\
    dict_get (repo_dir (world (snd (fetch_asset repo asset f)))) (name asset)
    = Some remains /\
    downloaded (snd (fetch_asset repo asset f)) = downloaded f /\
    (forall (repo' : text) (asset' : Asset) (f' : Frame),
        name asset' = name asset ->
        dict_get (repo_dir (world f')) (name asset) = Some remains ->
        In (Log (MAlreadyExists (name asset)))
           (trace (world (snd (fetch_asset repo' asset' f')))) /\
        repo_dir (world (snd (fetch_asset repo' asset' f'))) = repo_dir (world f') /\
        downloaded (snd (fetch_asset repo' asset' f')) = downloaded f').
Proof.
  intros repo asset e remains f Hapk Hnew Hpay.
  split; [|split; [|split]].
  - unfold fetch_asset. rewrite Hapk. cbn [negb].
    unfold bind, get, in_world, log, modify, raise. simpl.
    rewrite Hnew, Hpay. reflexivity.
  - unfold fetch_asset. rewrite Hapk. cbn [negb].
    unfold bind, get, in_world, log, modify, raise. simpl.
    rewrite Hnew, Hpay. simpl. apply dict_get_set_same.
  - unfold fetch_asset. rewrite Hapk. cbn [negb].
    unfold bind, get, in_world, log, modify, raise. simpl.
    rewrite Hnew, Hpay. reflexivity.
  - intros repo' asset' f' Hname Hthere.
    unfold fetch_asset. rewrite Hname, Hapk. cbn [negb].
    unfold extract_package, bind, get, in_world, log, modify, raise, ret. simpl.
    rewrite Hthere. simpl.
    assert (Hlast : forall tr more,
              In (Log (MAlreadyExists (name asset)))
                 ((tr ++ [Log (MAlreadyExists (name asset))]) ++ more)).
    { intros tr more. apply in_or_app. left. apply in_or_app. right. now left. }
    destruct (Store.py_contains _ _) as [[|]|]; simpl;
      try (split; [apply (Hlast _ []) || (apply in_or_app; right; now left) | auto]).
    rewrite Hthere.
    destruct remains as [package|]; simpl;
      try destruct (Store.py_setitem _ _ _); simpl;
      (split; [first [ apply Hlast | apply in_or_app; right; now left ] | auto]).
Qed.

Lemma partial_download_is_never_repaired_witness :
  let asset := {| name := T "app-1.2.apk"; payload := Broken URLError BrokenApk |} in
  let f := {| world := octo_world None; downloaded := false;
              repo_package_map := Store.PDict [] |} in
  fst (fetch_asset octo asset f) = Raised URLError /\
  dict_get (repo_dir (world (snd (fetch_asset octo asset f)))) (name asset)
  = Some BrokenApk /\
  downloaded (snd (fetch_asset octo asset f)) = downloaded f /\
  (forall (repo' : text) (asset' : Asset) (f' : Frame),
      name asset' = name asset ->
      dict_get (repo_dir (world f')) (name asset) = Some BrokenApk ->
      In (Log (MAlreadyExists (name asset)))
         (trace (world (snd (fetch_asset repo' asset' f')))) /\
      repo_dir (world (snd (fetch_asset repo' asset' f'))) = repo_dir (world f') /\
      downloaded (snd (fetch_asset repo' asset' f')) = downloaded f').
Proof.
  intros asset f.
  apply (@partial_download_is_never_repaired octo asset URLError BrokenApk f);
    reflexivity.
Defined.

End FetcherProgress.

(** ** What processing one repository can touch *)

Section FetcherFootprint.

Import Fetcher.

Variable R : World -> World -> Prop.
Hypothesis R_refl : forall w, R w w.
Hypothesis R_trans : forall a b c, R a b -> R b c -> R a c.
Hypothesis R_log :
  forall m w, asset_message m = true -> R w (emit (Log m) w).
Hypothesis R_traceback : forall w, R w (emit Traceback w).
Hypothesis R_repo_dir : forall d w, R w (set_repo_dir d w).

Lemma on_R_refl (f : Frame) : on_world R f f.
Proof. apply R_refl. Qed.

Lemma on_R_trans (a b c : Frame) :
  on_world R a b -> on_world R b c -> on_world R a c.
Proof. apply R_trans. Qed.

Lemma on_R_same_world (f f' : Frame) : world f' = world f -> on_world R f f'.
Proof. intros H. unfold on_world. rewrite H. apply R_refl. Qed.

Lemma in_world_log_footprint (m : message) :
  asset_message m = true -> preserves (on_world R) (in_world (log m)).
Proof. intros H f. unfold on_world. simpl. now apply R_log. Qed.

Lemma extract_package_footprint (repo filename : text) :
  preserves (on_world R) (extract_package repo filename).
Proof.
  intros f.
  unfold extract_package, bind, get, modify, in_world, log, ret, raise, on_world.
  simpl.
  destruct (Store.py_contains _ _) as [[|]|]; simpl; try apply R_refl.
  destruct (dict_get (repo_dir (world f)) filename) as [[package|]|]; simpl;
    try destruct (Store.py_setitem _ _ _); simpl;
    first [ now apply R_log | apply R_refl ].
Qed.

Lemma fetch_asset_footprint (repo : text) (asset : Asset) :
  preserves (on_world R) (fetch_asset repo asset).
Proof.
  unfold fetch_asset.
  destruct (negb _); [apply (@preserves_ret _ _ on_R_refl)|].
  apply (@preserves_bind _ _ on_R_trans);
    [|intros _; apply extract_package_footprint].
  apply preserves_get_bind; intros f.
  destruct (dict_get _ _).
  - now apply in_world_log_footprint.
  - apply (@preserves_bind _ _ on_R_trans);
      [now apply in_world_log_footprint | intros _].
    destruct (payload asset) as [e|e remains|file];
      [apply (@preserves_raise _ _ on_R_refl)| |].
    { apply (@preserves_bind _ _ on_R_trans);
        [|intros _; apply (@preserves_raise _ _ on_R_refl)].
      intros f'. unfold on_world. simpl. apply R_repo_dir. }
    apply (@preserves_bind _ _ on_R_trans); [|intros _].
    { intros f'. unfold on_world. simpl. apply R_repo_dir. }
    apply (@preserves_bind _ _ on_R_trans);
      [now apply in_world_log_footprint | intros _].
    apply preserves_modify; intros f'. now apply on_R_same_world.
Qed.

(** The part of [check_repo] after its first line. *)
Lemma check_repo_body_footprint (o : Outside) (repo : text) (f : Frame) :
  R (emit (Log (MChecking repo)) (world f)) (world (snd (check_repo o repo f))).
Proof.
  unfold check_repo. unfold bind at 1.
  change (in_world (log (MChecking repo)) f)
    with (Done tt, {| world := emit (Log (MChecking repo)) (world f);
                      downloaded := downloaded f;
                      repo_package_map := repo_package_map f |}).
  cbv beta iota.
  match goal with
  | |- R _ (world (snd (?body ?f0))) =>
      assert (H : preserves (on_world R) body); [|exact (H f0)]
  end.
  apply (@preserves_try_except _ _ on_R_trans).
  - destruct (latest_release o repo) as [e|assets].
    + apply (@preserves_raise _ _ on_R_refl).
    + apply (@preserves_for_each _ _ on_R_refl on_R_trans).
      intros asset. apply fetch_asset_footprint.
  - intros e. destruct e; try (now apply in_world_log_footprint);
      (apply (@preserves_bind _ _ on_R_trans);
       [now apply in_world_log_footprint | intros _];
       intros f'; unfold on_world; simpl; apply R_traceback).
Qed.

End FetcherFootprint.

Section FetcherExtras.

Import Fetcher.

Lemma checked_app (a b : list event) : checked (a ++ b) = checked a ++ checked b.
Proof. apply flat_map_app. Qed.

Lemma same_checked_trans (a b c : World) :
  same_checked a b -> same_checked b c -> same_checked a c.
Proof. unfold same_checked. congruence. Qed.

Lemma same_checked_emit (ev : event) (w : World) :
  check_of ev = [] -> same_checked w (emit ev w).
Proof.
  intros H. unfold same_checked. simpl. rewrite checked_app. simpl.
  rewrite H. now rewrite !app_nil_r.
Qed.

Lemma check_repo_checked (o : Outside) (repo : text) (f : Frame) :
  checked (trace (world (snd (check_repo o repo f))))
  = checked (trace (world f)) ++ [repo].
Proof.
  pose proof (@check_repo_body_footprint same_checked
                (fun w => eq_refl) same_checked_trans) as H.
  rewrite (H (fun m w Hm => same_checked_emit (Log m) w
                              ltac:(destruct m; first [discriminate | reflexivity]))
             (fun w => same_checked_emit Traceback w eq_refl)
             (fun d w => eq_refl) o repo f).
  simpl. rewrite checked_app. reflexivity.
Qed.

Lemma for_each_check_repo_checked (o : Outside) (repos : list text) :
  forall f,
    checked (trace (world (snd (for_each repos (check_repo o) f))))
    = checked (trace (world f)) ++ repos.
Proof.
  induction repos as [|repo rest IH]; intros f; simpl.
  - now rewrite app_nil_r.
  - erewrite bind_done by (apply never_raises_unit, check_repo_never_raises).
    rewrite IH, check_repo_checked. now rewrite <- app_assoc.
Qed.

(** Every configured repository is checked, once and in the configured
    order, whatever happens to the ones before it: a failed release query, a
    failed download or an unreadable artifact does not end the run. *)
Theorem every_configured_repo_is_checked :
  forall (o : Outside) (w : World) (repos : list text),
    repos_json w = Some (Repos repos) ->
    checked (trace (snd (fetch_apks o w))) = checked (trace w) ++ repos.
Proof.
  intros o w repos Hrepos. unfold fetch_apks. rewrite Hrepos.
  pose proof (for_each_check_repo_checked o repos
                {| world := w; downloaded := false;
                   repo_package_map :=
                     Store.load_value (repo_package_map_json w) |}) as H.
  destruct (for_each repos (check_repo o) _) as [[[]|e] f]; exact H.
Qed.

Lemma every_configured_repo_is_checked_witness :
  checked (trace (snd (fetch_apks offline_outside two_repo_world)))
  = checked (trace two_repo_world) ++ [octo; idle].
Proof.
  apply (@every_configured_repo_is_checked offline_outside two_repo_world
           [octo; idle]).
  reflexivity.
Defined.

Lemma only_fetched_refl (w : World) : only_fetched w w.
Proof. unfold only_fetched. auto 10. Qed.

Lemma only_fetched_trans (a b c : World) :
  only_fetched a b -> only_fetched b c -> only_fetched a c.
Proof.
  unfold only_fetched.
  intros (H1 & H2 & H3 & H4 & H5 & H6) (G1 & G2 & G3 & G4 & G5 & G6).
  repeat split; congruence.
Qed.

Lemma only_fetched_emit (ev : event) (w : World) :
  is_tool_run ev = false -> only_fetched w (emit ev w).
Proof.
  intros H. unfold only_fetched, tool_runs. simpl. rewrite filter_app. simpl.
  rewrite H, app_nil_r. auto 10.
Qed.

Lemma only_fetched_log (m : message) (w : World) :
  only_fetched w (emit (Log m) w).
Proof. now apply only_fetched_emit. Qed.

Lemma fetch_apks_only_fetched (o : Outside) (w : World) :
  only_fetched w (snd (fetch_apks o w)).
Proof.
  unfold fetch_apks.
  destruct (repos_json w) as [[|repos]|]; simpl.
  - apply only_fetched_refl.
  - assert (H : preserves (on_world only_fetched) (for_each repos (check_repo o))).
    { apply (@preserves_for_each _ _ (@on_R_refl _ only_fetched_refl)
               (@on_R_trans _ only_fetched_trans)).
      intros repo f. unfold on_world.
      apply (only_fetched_trans (only_fetched_log (MChecking repo) (world f))).
      apply (@check_repo_body_footprint only_fetched only_fetched_refl
               only_fetched_trans (fun m w0 _ => only_fetched_log m w0)
               (fun w0 => only_fetched_emit Traceback w0 eq_refl)
               (fun d w0 => only_fetched_refl w0)). }
    specialize (H {| world := w; downloaded := false;
                     repo_package_map :=
                       Store.load_value (repo_package_map_json w) |}).
    unfold on_world in H.
    destruct (for_each repos (check_repo o) _) as [[[]|e] f]; simpl in *;
      [|exact H].
    eapply only_fetched_trans; [exact H|].
    unfold only_fetched. simpl. auto 10.
  - apply only_fetched_log.
Qed.

(** A cycle in which the fetcher completes no download does nothing else:
    the harvester, the reconciler and the tool are not started, and apart
    from the repository directory (where a failed download may leave what
    it wrote), the identity map and the printed lines, every file (records,
    staged bundles, published media, both configurations) is as it was. *)
Theorem idle_cycle_changes_nothing :
  forall (o : Outside) (w w1 : World) (repos : list text),
    fetch_apks o (emit (Log MStartingCheck) w) = (Done (false, repos), w1) ->
    Scheduler.iteration o w
    = (Done tt, emit Sleep (emit (Log MSleeping) (emit (Log MCheckComplete)
                  (emit (Log MNoNewApks) w1)))) /\
    only_fetched w (snd (Scheduler.iteration o w)).
Proof.
  intros o w w1 repos Hfetch.
  assert (Hiter : Scheduler.iteration o w
    = (Done tt, emit Sleep (emit (Log MSleeping) (emit (Log MCheckComplete)
                  (emit (Log MNoNewApks) w1))))).
  { unfold Scheduler.iteration, try_except, bind at 1.
    unfold Scheduler.update_check.
    erewrite bind_done by apply log_done.
    erewrite bind_done by exact Hfetch.
    reflexivity. }
  rewrite Hiter. split; [reflexivity|]. simpl.
  pose proof (fetch_apks_only_fetched o (emit (Log MStartingCheck) w)) as Hrest.
  rewrite Hfetch in Hrest. simpl in Hrest.
  apply (only_fetched_trans (only_fetched_log MStartingCheck w)).
  apply (only_fetched_trans Hrest).
  apply (only_fetched_trans (only_fetched_log MNoNewApks w1)).
  apply (only_fetched_trans (only_fetched_log MCheckComplete _)).
  apply (only_fetched_trans (only_fetched_log MSleeping _)).
  now apply only_fetched_emit.
Qed.

Lemma idle_cycle_changes_nothing_witness :
  Scheduler.iteration (octo_outside true true) octo_mapped
  = (Done tt, emit Sleep (emit (Log MSleeping) (emit (Log MCheckComplete)
       (emit (Log MNoNewApks)
          (snd (fetch_apks (octo_outside true true)
                  (emit (Log MStartingCheck) octo_mapped))))))) /\
  only_fetched octo_mapped
    (snd (Scheduler.iteration (octo_outside true true) octo_mapped)).
Proof.
  apply (@idle_cycle_changes_nothing (octo_outside true true) octo_mapped
           (snd (fetch_apks (octo_outside true true)
                   (emit (Log MStartingCheck) octo_mapped))) [octo]).
  vm_compute. reflexivity.
Defined.

End FetcherExtras.

(** ** From the harvester's directory name to the reconciler's match *)

Section Routing.

Import Reconciler.

Lemma split_nonempty (sep : ascii) (s : text) : split sep s <> [].
Proof.
  destruct s as [|x r]; simpl; [discriminate|].
  destruct (Ascii.eqb x sep); [discriminate|].
  destruct (split sep r); discriminate.
Qed.

Lemma replace_char_one_part (sep c : ascii) (s : text) :
  forall b, split sep s = [b] -> replace_char sep c s = b.
Proof.
  induction s as [|x r IH]; intros b H; simpl in H.
  - now inversion H.
  - destruct (Ascii.eqb x sep) eqn:E.
    + inversion H as [[Hb Hr]]. now apply split_nonempty in Hr.
    + destruct (split sep r) as [|p ps] eqn:Es;
        [now apply split_nonempty in Es|].
      inversion H; subst. simpl. rewrite E. f_equal. now apply IH.
Qed.

Lemma replace_char_two_parts (sep c : ascii) (s : text) :
  forall a b, split sep s = [a; b] -> replace_char sep c s = a ++ c :: b.
Proof.
  induction s as [|x r IH]; intros a b H; simpl in H; [discriminate|].
  destruct (Ascii.eqb x sep) eqn:E.
  - inversion H as [[Ha Hb]]. simpl. rewrite E. f_equal.
    now apply replace_char_one_part.
  - destruct (split sep r) as [|p ps] eqn:Es; [discriminate|].
    inversion H; subst. simpl. rewrite E. f_equal. now apply IH.
Qed.

Lemma remove_all_absent (old s : text) :
  str_in old s = false -> remove_all_from 0 old s = s.
Proof.
  induction s as [|c r IH]; simpl; [reflexivity|].
  intros H. apply orb_false_elim in H. destruct H as [H1 H2].
  change (match old with
          | [] => true
          | a :: p' => Ascii.eqb a c && startswith p' r
          end) with (startswith old (c :: r)).
  rewrite H1. now rewrite IH.
Qed.

Lemma remove_all_from_skip (old r s : text) :
  remove_all_from (List.length r) old (r ++ s) = remove_all_from 0 old s.
Proof.
  induction r as [|c r IH]; simpl; [reflexivity|]. exact IH.
Qed.

Lemma find_match_mapped (m : dict text) (repo package : text) :
  dict_get m repo = Some package ->
  exists slug package',
    find_match m (replace_char "/" "_" repo) = Some (slug, package') /\
    replace_char "/" "_" slug = replace_char "/" "_" repo.
Proof.
  induction m as [|[k v] r IH]; simpl; [discriminate|].
  destruct (text_eqb (replace_char "/" "_" repo) (replace_char "/" "_" k)) eqn:E.
  - intros _. exists k, v. split; [reflexivity|].
    apply text_eqb_eq in E. now symmetry.
  - destruct (text_eqb repo k) eqn:Ek.
    + apply text_eqb_eq in Ek. subst k. now rewrite text_eqb_refl in E.
    + exact IH.
Qed.

(** The directory the harvester stages a repository under is the one the
    reconciler looks for: for a slug [owner/project] that has an entry in
    the identity map and whose directory name [owner_project] does not
    contain the text [.temp_metadata_] (the reconciler removes every
    occurrence of it from the directory name, not only the prefix), the
    reconciler finds an entry for the staged directory, and the slug of
    that entry has the same directory name. *)
Theorem staged_bundle_is_routed :
  forall (m : dict text) (repo owner repo_name package : text),
    split "/" repo = [owner; repo_name] ->
    str_in (T ".temp_metadata_") (staging_key owner repo_name) = false ->
    dict_get m repo = Some package ->
    exists slug package',
      find_match m (remove_all (T ".temp_metadata_")
                      (T ".temp_metadata_" ++ staging_key owner repo_name))
      = Some (slug, package') /\
      replace_char "/" "_" slug = staging_key owner repo_name.
Proof.
  intros m repo owner repo_name package Hsplit Hclean Hget.
  assert (Hname : replace_char "/" "_" repo = staging_key owner repo_name)
    by (now apply replace_char_two_parts).
  assert (Hdir : remove_all (T ".temp_metadata_")
                   (T ".temp_metadata_" ++ staging_key owner repo_name)
                 = staging_key owner repo_name).
  { unfold remove_all.
    change (T ".temp_metadata_" ++ staging_key owner repo_name)
      with ("."%char :: T "temp_metadata_" ++ staging_key owner repo_name).
    change (remove_all_from 0 (T ".temp_metadata_")
              ("."%char :: T "temp_metadata_" ++ staging_key owner repo_name))
      with (remove_all_from (List.length (T "temp_metadata_")) (T ".temp_metadata_")
              (T "temp_metadata_" ++ staging_key owner repo_name)).
    rewrite remove_all_from_skip. now apply remove_all_absent. }
  rewrite Hdir, <- Hname. now apply (@find_match_mapped m repo package).
Qed.

Lemma staged_bundle_is_routed_witness :
  exists slug package',
    find_match [(octo, T "org.example.app")]
      (remove_all (T ".temp_metadata_")
         (T ".temp_metadata_" ++ staging_key (T "octo") (T "app")))
    = Some (slug, package') /\
    replace_char "/" "_" slug = staging_key (T "octo") (T "app").
Proof.
  apply (@staged_bundle_is_routed [(octo, T "org.example.app")] octo
           (T "octo") (T "app") (T "org.example.app")); reflexivity.
Defined.

End Routing.

(** ** Round trip of the identity map, and cycles without a repository list *)

Section LastExtras.

Import Store.

(** A dictionary written by [json.dump] is read back by [json.load] as the
    same dictionary, entries in the same order. *)
Theorem saved_map_loads_back :
  forall d : dict text, unique_keys d -> json_load (json_dump d) = Some d.
Proof.
  intros d Hu. destruct d as [|[k v] r]; [reflexivity|].
  unfold json_dump. simpl. now apply (load_members_dump r [(k, v)]).
Qed.

Lemma saved_map_loads_back_witness :
  json_load (json_dump [(octo, T "org.example.app"); (idle, T "org.example.idle")])
  = Some [(octo, T "org.example.app"); (idle, T "org.example.idle")].
Proof.
  apply saved_map_loads_back.
  unfold unique_keys. simpl.
  constructor; [|constructor; [|constructor]]; simpl.
  - intros [H|[]]. vm_compute in H. discriminate.
  - tauto.
Defined.

(** Any value [json.dump] writes is read back by [json.load] as the same
    value: strings, and dictionaries nested to any depth, entries in the
    same order. *)
Theorem saved_value_loads_back :
  forall v : py, wf_py v -> json_load_value (dump_value v) = Some v.
Proof.
  intros v Hwf. unfold json_load_value.
  destruct (parse_dump (S (List.length (dump_value v)))) as [Hv _].
  rewrite <- (app_nil_r (dump_value v)) at 2.
  rewrite Hv; [reflexivity | exact Hwf | lia].
Qed.

Lemma saved_value_loads_back_witness :
  json_load_value
    (dump_value (PDict [(octo, PDict [(T "id", PStr (T "org.example.app"))]);
                        (idle, PStr (T "org.example.idle"))]))
  = Some (PDict [(octo, PDict [(T "id", PStr (T "org.example.app"))]);
                 (idle, PStr (T "org.example.idle"))]).
Proof.
  apply saved_value_loads_back.
  apply wf_py_dict. split.
  - unfold unique_keys. simpl.
    constructor; [|constructor; [|constructor]]; simpl.
    + intros [H|[]]. vm_compute in H. discriminate.
    + tauto.
  - constructor; [|constructor; [exact I | constructor]].
    apply wf_py_dict. split; [|constructor; [exact I | constructor]].
    unfold unique_keys. simpl. constructor; [simpl; tauto | constructor].
Defined.

(** Without [repos.json] the cycle logs that, reports no new APKs and
    sleeps; with a [repos.json] that [json.load] rejects, the exception
    reaches the loop's handler, which logs the crash, and the cycle sleeps.
    In both cases nothing but the printed lines changes. *)
Theorem cycle_without_repository_list :
  forall (o : Outside) (w : World),
    match repos_json w with
    | None =>
        Scheduler.iteration o w
        = (Done tt,
           emit Sleep (emit (Log MSleeping) (emit (Log MCheckComplete)
             (emit (Log MNoNewApks) (emit (Log MReposNotFound)
                (emit (Log MStartingCheck) w))))))
    | Some ReposMalformed =>
        Scheduler.iteration o w
        = (Done tt,
           emit Sleep (emit (Log MSleeping) (emit Traceback
             (emit (Log (MLoopCrashed JSONDecodeError))
                (emit (Log MStartingCheck) w)))))
    | Some (Repos _) => True
    end.
Proof.
  intros o w.
  destruct (repos_json w) as [[|repos]|] eqn:E; [| exact I |];
    unfold Scheduler.iteration, Scheduler.update_check, Fetcher.fetch_apks,
      try_except, bind, log, modify, ret; simpl; rewrite E; reflexivity.
Qed.

End LastExtras.
